(** * error-alerts: the occurrence engine of src/Alerter.js

    A shallow embedding of the [Alerter] class: the binary search over the
    timestamp history ([_find_bound], [_find_range]), the incremental flush
    ([_flush_queued], [_write]), the threshold evaluator ([_check]), the
    ingestion entry point ([tell]) and the start-up recovery ([start] and its
    read callback).  Timestamps are millisecond integers, modelled in [Z].
    What the host decides is an input of the call it decides: the reading of
    the clock, the day the calendar library subtracts, the answer of the file
    system to a write of the state file, and [parseInt]. *)

From Stdlib Require Import ZArith Lia Sorted Ascii.
From stdpp Require Import base option list strings gmap pretty sorting.

Local Open Scope Z_scope.

(** ** Host-language values

    The numbers the class manipulates are integers; what matters of the host
    language is that an absent array slot or an omitted argument reads as
    [undefined], that every ordering comparison with [undefined] is false, and
    that arithmetic on [undefined] yields NaN. *)

Inductive value : Type :=
  | undefined
  | num (z : Z).

Definition js_le (a b : value) : bool :=
  match a, b with num x, num y => x <=? y | _, _ => false end.

Definition js_lt (a b : value) : bool :=
  match a, b with num x, num y => x <? y | _, _ => false end.

Definition js_gt (a b : value) : bool := js_lt b a.

Definition js_ge (a b : value) : bool := js_le b a.

(** [a === b] *)
Definition js_seq (a b : value) : bool :=
  match a, b with
  | num x, num y => x =? y
  | undefined, undefined => true
  | _, _ => false
  end.

(** [timestamps[i]]: out of range (also a negative index) reads [undefined]. *)
Definition at_index (timestamps : list Z) (i : Z) : value :=
  if i <? 0 then undefined
  else match timestamps !! Z.to_nat i with
       | Some z => num z
       | None => undefined
       end.

Definition len (timestamps : list Z) : Z := Z.of_nat (length timestamps).


(** ** Range index *)

(** The backward scan [while (timestamps[middle - 1] === target) middle--].
    [None] stands for a scan that has not stopped within [fuel] steps. *)
Fixpoint scan_duplicates (fuel : nat) (target : value) (timestamps : list Z)
    (middle : Z) : option Z :=
  match fuel with
  | O => None
  | S fuel' =>
      if js_seq (at_index timestamps (middle - 1)) target
      then scan_duplicates fuel' target timestamps (middle - 1)
      else Some middle
  end.

(** [_find_bound(target, timestamps, left, right)].  An omitted [left] or
    [right] is [None].  The result is [None] when [fuel] calls and scan steps
    were not enough, [Some undefined] when the body ends without a [return]. *)
Fixpoint _find_bound (fuel : nat) (target : value) (timestamps : list Z)
    (left right : option Z) : option value :=
  match fuel with
  | O => None
  | S fuel' =>
      let left := default 0 left in
      let right := default (len timestamps - 1) right in
      if js_le target (at_index timestamps 0) then Some (num 0)
      else if js_gt target (at_index timestamps (len timestamps - 1))
      then Some (num (len timestamps))
      else if left =? right then Some (num left)
      else
        let middle := (right - left) / 2 + left in
        if js_seq (at_index timestamps middle) target
        then num <$> scan_duplicates fuel' target timestamps middle
        else if js_gt target (at_index timestamps middle)
        then _find_bound fuel' target timestamps (Some (middle + 1)) (Some right)
        else if js_lt target (at_index timestamps middle)
        then _find_bound fuel' target timestamps (Some left) (Some middle)
        else Some undefined
  end.

(** [find_bound] is the two-argument call.  Calls plus scan steps never
    exceed twice the length of the history when the search ends at all: a
    result [None] is a search that no fuel ends ([find_bound_None]). *)
Definition bound_fuel (timestamps : list Z) : nat :=
  S (S (2 * length timestamps)).

Definition find_bound (target : value) (timestamps : list Z) : option value :=
  _find_bound (bound_fuel timestamps) target timestamps None None.


(** ** The alerter object *)

Inductive window_key : Type := Minute | Hour | Day.

Definition window_name (check_key : window_key) : string :=
  match check_key with Minute => "minute" | Hour => "hour" | Day => "day" end.

(** One of the three timeframes of a settings object.  [None] is the
    [undefined] a blank settings object starts with (or the [null] a saved
    state holds). *)
Record timespan : Type := Timespan {
  enabled : bool;
  threshold : option Z;
  cooldown : option Z;
  last_alert : option Z
}.

(** The write stream of a log file as the class sees it: [write] accepts the
    chunk and answers whether the bytes waiting in the internal buffer are
    still below the high water mark; the stream drains when they have gone
    to the file. *)
Record wstream : Type := WStream {
  ws_path : string;
  ws_chunks : list string;
  ws_pending : Z;
  ws_high_water_mark : Z
}.

Definition stream_write (s : wstream) (data : string) : wstream * bool :=
  let pending := ws_pending s + Z.of_nat (String.length data) in
  (WStream (ws_path s) (ws_chunks s ++ [data]) pending (ws_high_water_mark s),
   pending <? ws_high_water_mark s).

Definition stream_drain (s : wstream) : wstream :=
  WStream (ws_path s) (ws_chunks s) 0 (ws_high_water_mark s).

Definition createWriteStream (path : string) : wstream := WStream path [] 0 16384.

Record settings : Type := Settings {
  watch : bool;
  log : option string;
  stream : option wstream;
  draining : bool;
  minute : timespan;
  hour : timespan;
  day : timespan
}.

(** Errors thrown by the host or handed over by the file system. *)
Inductive js_error : Type :=
  | TypeError
  | ReferenceError (name : string)
  | IOError (code : string).

(** What leaves the process: mails handed to sendmail, the calls of
    [fs.writeFileSync] on the state file by [_save] (whether or not the file
    system takes the write), calls of the user's [act] function and of the
    [start] callback. *)
Inductive effect : Type :=
  | Sendmail (from : option string) (to : string) (subject : string)
  | WriteState (path : string) (state : list (string * (option Z * option Z * option Z)))
  | Act (error_type : string) (check_key : window_key)
  | Callback (err : option js_error).

Record alerter : Type := Alerter {
  _root : option string;
  _started : bool;
  _ready : bool;
  _timestamps : gmap string (list Z);
  _queued : gmap string (list Z);
  _settings : gmap string settings;
  _from : option string;
  _contacts : list string;
  effects : list effect
}.

Definition ALL : string := "_all".
Definition DEFAULT : string := "_default".

Definition blank_timespan : timespan := Timespan false None None None.

Definition _blank_settings : settings :=
  Settings true None None false blank_timespan blank_timespan blank_timespan.

(** [new Alerter()] *)
Definition new_alerter : alerter :=
  Alerter None false false
    {[ ALL := [] ]} {[ ALL := [] ]}
    (<[ ALL := _blank_settings ]> {[ DEFAULT := _blank_settings ]})
    None [] [].

Definition with_timestamps (f : gmap string (list Z) -> gmap string (list Z))
    (a : alerter) : alerter :=
  Alerter (_root a) (_started a) (_ready a) (f (_timestamps a)) (_queued a)
    (_settings a) (_from a) (_contacts a) (effects a).

Definition with_queued (f : gmap string (list Z) -> gmap string (list Z))
    (a : alerter) : alerter :=
  Alerter (_root a) (_started a) (_ready a) (_timestamps a) (f (_queued a))
    (_settings a) (_from a) (_contacts a) (effects a).

Definition with_settings (f : gmap string settings -> gmap string settings)
    (a : alerter) : alerter :=
  Alerter (_root a) (_started a) (_ready a) (_timestamps a) (_queued a)
    (f (_settings a)) (_from a) (_contacts a) (effects a).

Definition with_started (b : bool) (a : alerter) : alerter :=
  Alerter (_root a) b (_ready a) (_timestamps a) (_queued a)
    (_settings a) (_from a) (_contacts a) (effects a).

Definition with_ready (b : bool) (a : alerter) : alerter :=
  Alerter (_root a) (_started a) b (_timestamps a) (_queued a)
    (_settings a) (_from a) (_contacts a) (effects a).

Definition emit (e : effect) (a : alerter) : alerter :=
  Alerter (_root a) (_started a) (_ready a) (_timestamps a) (_queued a)
    (_settings a) (_from a) (_contacts a) (effects a ++ [e]).

Definition get_timespan (check_key : window_key) (s : settings) : timespan :=
  match check_key with Minute => minute s | Hour => hour s | Day => day s end.

Definition set_timespan (check_key : window_key) (t : timespan) (s : settings)
    : settings :=
  match check_key with
  | Minute => Settings (watch s) (log s) (stream s) (draining s) t (hour s) (day s)
  | Hour => Settings (watch s) (log s) (stream s) (draining s) (minute s) t (day s)
  | Day => Settings (watch s) (log s) (stream s) (draining s) (minute s) (hour s) t
  end.

Definition set_stream (st : option wstream) (d : bool) (s : settings) : settings :=
  Settings (watch s) (log s) st d (minute s) (hour s) (day s).

Definition set_watch (w : bool) (s : settings) : settings :=
  Settings w (log s) (stream s) (draining s) (minute s) (hour s) (day s).

Definition set_log (l : option string) (s : settings) : settings :=
  Settings (watch s) l (stream s) (draining s) (minute s) (hour s) (day s).

Definition set_last_alert (t : option Z) (c : timespan) : timespan :=
  Timespan (enabled c) (threshold c) (cooldown c) t.

(** ** Calls on the alerter: state, exceptions, divergence *)

Inductive outcome (A : Type) : Type :=
  | Return (x : A)
  | Throw (e : js_error)
  | Hang.
Arguments Return {A} x.
Arguments Throw {A} e.
Arguments Hang {A}.

Definition M (A : Type) : Type := alerter -> outcome A * alerter.

Definition ret {A} (x : A) : M A := fun a => (Return x, a).

Definition bind {A B} (m : M A) (k : A -> M B) : M B := fun a =>
  match m a with
  | (Return x, a') => k x a'
  | (Throw e, a') => (Throw e, a')
  | (Hang, a') => (Hang, a')
  end.

Definition throw {A} (e : js_error) : M A := fun a => (Throw e, a).
Definition hang {A} : M A := fun a => (Hang, a).
Definition gets {A} (f : alerter -> A) : M A := fun a => (Return (f a), a).
Definition modify (f : alerter -> alerter) : M unit := fun a => (Return tt, f a).

Notation "'let!' x ':=' c1 'in' c2" := (bind c1 (fun x => c2))
  (at level 10, x name, c1 at level 100, c2 at level 200).
Notation "c1 ;; c2" := (bind c1 (fun _ => c2))
  (at level 100, c2 at level 200, right associativity).

(** [this._settings[error_type]] followed by a property read: a missing key
    reads [undefined], and the property read throws. *)
Definition settings_of (error_type : string) : M settings := fun a =>
  match _settings a !! error_type with
  | Some s => (Return s, a)
  | None => (Throw TypeError, a)
  end.

(** [for (let key in obj)] over the keys the object has when the loop starts. *)
Fixpoint for_in (keys : list string) (body : string -> M unit) : M unit :=
  match keys with
  | [] => ret tt
  | key :: keys' => body key ;; for_in keys' body
  end.

(** The keys are visited in the order of the map, each once; the loops of
    the class treat their keys independently of one another. *)
Definition keys {A} (obj : gmap string A) : list string := (map_to_list obj).*1.

(** Truthiness of a number-or-undefined and of a path-or-false. *)
Definition truthy (v : value) : bool :=
  match v with num z => negb (z =? 0) | undefined => false end.

Definition truthy_num (v : option Z) : bool :=
  match v with Some z => negb (z =? 0) | None => false end.

Definition truthy_str (v : option string) : bool :=
  match v with Some s => negb (String.eqb s "") | None => false end.

(** ** Occurrence store *)

Record bounds : Type := Range { from : value; to : value }.

(** The history the range queries run on: saved, then queued. *)
Definition history (error_type : string) (a : alerter) : list Z :=
  default [] (_timestamps a !! error_type) ++ default [] (_queued a !! error_type).

(** [_find_range(error_type, range)]; [None] when a search does not return. *)
Definition _find_range (error_type : string) (range : bounds) (a : alerter)
    : option bounds :=
  let saved := default [] (_timestamps a !! error_type) in
  let queued := default [] (_queued a !! error_type) in
  let timestamps := saved ++ queued in
  let results := Range (num 0) (num (len timestamps - 1)) in
  results_from ←
    (if truthy (from range)
     then find_bound (from range) timestamps
     else Some (from results));
  results_to ←
    (if truthy (to range)
     then
       bound ← find_bound (from range) timestamps;
       Some (if js_seq bound (num (len timestamps))
             then match bound with num i => num (i - 1) | undefined => bound end
             else bound)
     else Some (to results));
  Some (Range results_from results_to).

(** ** Persistence: write attempts and the incremental flush *)

Definition newline : Ascii.ascii := "010"%char.

(** [data.join("\n") + "\n"] *)
Definition join_lines (data : list Z) : string :=
  String.concat (String newline "") (pretty <$> data) +:+ String newline "".

(** [_write(error_type, data)] *)
Definition _write (error_type : string) (data : list Z) : M bool :=
  let! error_settings := settings_of error_type in
  if negb (truthy_str (log error_settings)) then ret true
  else
    match draining error_settings, stream error_settings with
    | false, Some stream =>
        let '(stream', accepted) := stream_write stream (join_lines data) in
        let full := negb accepted in
        modify (with_settings
          <[ error_type :=
             set_stream (Some stream')
               (if full then true else draining error_settings)
               error_settings ]>) ;;
        ret true
    | _, _ => ret false
    end.

(** The drain event of the stream of [key]: the buffer has emptied, and the
    listener [_set_draining] lowers the flag. *)
Definition _set_draining (key : string) : M unit :=
  let! key_settings := settings_of key in
  modify (with_settings
    <[ key := set_stream (stream_drain <$> stream key_settings) false key_settings ]>).

(** The body of the loop of [_flush_queued] for one key. *)
Definition flush_key (error_type : string) : M unit :=
  let! timestamps := gets (fun a => default [] (_queued a !! error_type)) in
  let! written := _write error_type timestamps in
  if written
  then
    modify (fun a =>
      with_queued (delete error_type)
        (with_timestamps
           <[ error_type := default [] (_timestamps a !! error_type)
                            ++ default [] (_queued a !! error_type) ]> a))
  else ret tt.

Definition _flush_queued : M unit := fun a =>
  for_in (keys (_queued a)) flush_key a.

(** ** Threshold evaluator *)

(** How many milliseconds a threshold must be reached in. *)
Definition window (check_key : window_key) : Z :=
  match check_key with
  | Minute => 60000
  | Hour => 3600000
  | Day => 86400000
  end.

(** The path of the state file: the root is interpolated as it is, a missing
    one as the word undefined. *)
Definition state_path (a : alerter) : string :=
  default "undefined" (_root a) +:+ "/_state".

(** The answer of the host's file system to [fs.writeFileSync(path, data)]:
    [None] when the file is written, otherwise the code of the error the
    call throws (ENOENT when the directory does not exist, EACCES when it
    may not be written, ...). *)
Definition file_system : Type :=
  string -> list (string * (option Z * option Z * option Z)) -> option string.

Section Host.

Variable writeFileSync : file_system.

(** [_save()]: the last alerts of every configured error type go to the state
    file; the call throws what [fs.writeFileSync] throws. *)
Definition _save : M unit := fun a =>
  let state :=
    (fun '(error_type, s) =>
       (error_type,
        (last_alert (minute s), last_alert (hour s), last_alert (day s))))
    <$> map_to_list (_settings a) in
  match writeFileSync (state_path a) state with
  | None => (Return tt, emit (WriteState (state_path a) state) a)
  | Some code => (Throw (IOError code), emit (WriteState (state_path a) state) a)
  end.

(** The subject line of an alert mail. *)
Definition alert_subject (error_type trigger_name : string) : string :=
  "ALERT: " +:+ error_type +:+ " has reached its " +:+ trigger_name +:+ " threshold.".

(** [_alert(error_type, trigger_name)] *)
Definition _alert (error_type trigger_name : string) : M unit :=
  modify (fun a =>
    emit (Sendmail (_from a) (String.concat ", " (_contacts a))
            (alert_subject error_type trigger_name)) a) ;;
  _save.

(** The cooldown guard of [_check]: a truthy [last_alert], a [cooldown]
    other than [undefined], and [last_alert >= current_time - cooldown]
    with the cooldown's minutes turned into milliseconds. *)
Definition cooling_down (check : timespan) (current_time : Z) : bool :=
  if truthy_num (last_alert check)
  then
    match last_alert check, cooldown check with
    | Some last, Some minutes =>
        let cooldown_timestamp := current_time - minutes * 60000 in
        cooldown_timestamp <=? last
    | _, _ => false
    end
  else false.

(** [range.to - range.from + 1]; [None] is NaN. *)
Definition error_count (range : bounds) : option Z :=
  match to range, from range with
  | num t, num f => Some (t - f + 1)
  | _, _ => None
  end.

(** [error_count >= check.threshold] *)
Definition reaches (error_count threshold : option Z) : bool :=
  match error_count, threshold with
  | Some n, Some t => t <=? n
  | _, _ => false
  end.

(** The body of [if (error_count >= check.threshold)]: the alert time is
    recorded, the mail sent and the state saved, the [act] of the settings
    called.  When the save throws, the body is left there.  [act] is the
    function without a body of [_blank_settings]: the setter that replaces
    it is not part of this model. *)
Definition fire (error_type : string) (current_time : Z)
    (check_key : window_key) (error_settings : settings) : M unit :=
  let check := get_timespan check_key error_settings in
  modify (with_settings
    <[ error_type :=
       set_timespan check_key (set_last_alert (Some current_time) check)
         error_settings ]>) ;;
  _alert error_type (window_name check_key) ;;
  modify (emit (Act error_type check_key)).

(** One turn of the loop of [_check]. *)
Definition check_window (error_type : string) (current_time : Z)
    (check_key : window_key) : M unit :=
  let! error_settings := settings_of error_type in
  let check := get_timespan check_key error_settings in
  if negb (enabled check) then ret tt
  else if cooling_down check current_time then ret tt
  else
    let! found := gets (_find_range error_type
                          (Range (num (current_time - window check_key)) undefined)) in
    match found with
    | None => hang
    | Some range =>
        if reaches (error_count range) (threshold check)
        then fire error_type current_time check_key error_settings
        else ret tt
    end.

(** [_check(error_type, current_time)] *)
Definition _check (error_type : string) (current_time : Z) : M unit :=
  settings_of error_type ;;
  check_window error_type current_time Minute ;;
  check_window error_type current_time Hour ;;
  check_window error_type current_time Day.

(** ** Ingestion *)

(** What a caller can hand to [tell] or [one]. *)
Inductive input : Type :=
  | in_undefined
  | in_null
  | in_boolean (b : bool)
  | in_number (n : Z)
  | in_string (s : string)
  | in_error (constructor_name : string)
  | in_object (constructor_name : string).

Definition truthy_input (error : input) : bool :=
  match error with
  | in_undefined | in_null => false
  | in_boolean b => b
  | in_number n => negb (n =? 0)
  | in_string s => negb (String.eqb s "")
  | in_error _ | in_object _ => true
  end.

Definition instanceof_Error (error : input) : bool :=
  match error with in_error _ => true | _ => false end.

(** [_key(error)] *)
Definition _key (error : input) : string :=
  match error with
  | in_string s => s
  | in_error constructor_name => constructor_name
  | _ => DEFAULT
  end.

(** [_tell(key, current_time)] *)
Definition _tell (key : string) (current_time : Z) : M unit :=
  modify (with_queued (fun queued =>
    match queued !! key with
    | Some q => <[ key := q ++ [current_time] ]> queued
    | None => <[ key := [current_time] ]> queued
    end)) ;;
  _flush_queued ;;
  _check key current_time.

(** [tell(error)], with [current_time] the reading of the clock. *)
Definition tell (current_time : Z) (error : input) : M unit :=
  if negb (truthy_input error) || negb (instanceof_Error error) then ret tt
  else
    let! all := settings_of ALL in
    (if watch all then _tell ALL current_time else ret tt) ;;
    let key := _key error in
    let! error_settings := settings_of key in
    if watch error_settings then _tell key current_time else ret tt.

End Host.

(** ** Configuration *)

(** [_one(error)]: the settings of the key are created when absent. *)
Definition _one (error : input) : M string :=
  let key := _key error in
  modify (with_settings (fun all =>
    match all !! key with
    | Some _ => all
    | None => <[ key := _blank_settings ]> all
    end)) ;;
  ret key.

Definition edit_on (t : timespan) : timespan :=
  Timespan true (threshold t) (cooldown t) (last_alert t).
Definition edit_off (t : timespan) : timespan :=
  Timespan false (threshold t) (cooldown t) (last_alert t).
Definition edit_threshold (n : Z) (t : timespan) : timespan :=
  Timespan (enabled t) (Some n) (cooldown t) (last_alert t).
Definition edit_cooldown (n : Z) (t : timespan) : timespan :=
  Timespan (enabled t) (threshold t) (Some n) (last_alert t).

(** [one(error).minute().on()...]: the setters of [_edit_timespan] applied
    to one timeframe of the key. *)
Definition _edit_timespan (error : input) (timespan_key : window_key)
    (edit : timespan -> timespan) : M unit :=
  let! key := _one error in
  modify (with_settings
    (alter (fun s => set_timespan timespan_key (edit (get_timespan timespan_key s)) s) key)).

(** [one(error).ignore()], [one(error).watch()], [one(error).log(path)] *)
Definition ignore (error : input) : M unit :=
  let! key := _one error in modify (with_settings (alter (set_watch false) key)).

Definition rewatch (error : input) : M unit :=
  let! key := _one error in modify (with_settings (alter (set_watch true) key)).

Definition log_to (error : input) (path : string) : M unit :=
  let! key := _one error in modify (with_settings (alter (set_log (Some path)) key)).

(** [one(error).log(true)]: the default path under the root. *)
Definition log_default (error : input) : M unit :=
  let! key := _one error in
  modify (fun a =>
    with_settings
      (alter (set_log (Some (default "undefined" (_root a) +:+ "/" +:+ key +:+ ".log"))) key)
      a).

(** [root(path)], [from(email)] *)
Definition root (path : string) : M unit := modify (fun a =>
  Alerter (Some path) (_started a) (_ready a) (_timestamps a) (_queued a)
    (_settings a) (_from a) (_contacts a) (effects a)).

Definition set_from (email : string) : M unit := modify (fun a =>
  Alerter (_root a) (_started a) (_ready a) (_timestamps a) (_queued a)
    (_settings a) (Some email) (_contacts a) (effects a)).

(** What a caller can hand to [contact]: one address, an array of
    addresses, or anything else. *)
Inductive contacts_input : Type :=
  | contacts_string (address : string)
  | contacts_array (addresses : list string)
  | contacts_other.

(** [contact(contacts)] *)
Definition contact (contacts : contacts_input) : M unit := modify (fun a =>
  let addresses :=
    match contacts with
    | contacts_string address => [address]
    | contacts_array addresses => addresses
    | contacts_other => _contacts a
    end in
  Alerter (_root a) (_started a) (_ready a) (_timestamps a) (_queued a)
    (_settings a) (_from a) addresses (effects a)).

(** The state a call leaves behind. *)
Definition run {A} (m : M A) (a : alerter) : alerter := (m a).2.

(** ** Start-up recovery *)

Record target : Type := Target { target_error_type : string; target_log : string }.

(** The variables the callbacks of [start] close over. *)
Record recovery : Type := Recovery {
  reads_left : Z;
  read_error : bool;
  opens_left : Z;
  open_error : bool;
  state_loaded : bool;
  state_error : bool;
  one_day_ago : Z
}.

Definition start_targets (a : alerter) : list target :=
  omap (fun '(error_type, s) =>
          match log s with
          | Some path =>
              if watch s && truthy_str (log s)
              then Some (Target error_type path) else None
          | None => None
          end)
       (map_to_list (_settings a)).

(** The synchronous part of [start(callback)]: the result is the closure
    state and the log files whose reads are issued.  [one_day_ago] is the
    value of [moment().subtract(moment.duration(1, 'days')).valueOf()], the
    host's to compute: the reading of the clock less one day of the local
    calendar, which is 24 hours except across a change of the clocks.  On a
    second call the argument of [callback] is evaluated first:
    [new AlerterErrror(...)] names a class that is declared nowhere. *)
Definition start (one_day_ago : Z) : M (recovery * list target) :=
  let! started := gets _started in
  if started then throw (ReferenceError "AlerterErrror")
  else
    modify (with_started true) ;;
    let! targets := gets start_targets in
    let count := Z.of_nat (length targets) in
    ret (Recovery count false count false false false one_day_ago, targets).

(** What [fs.readFile] hands to its callback. *)
Inductive read_result : Type :=
  | ReadData (data : string)
  | ReadError (code : string).

(** [data.split("\n")] *)
Fixpoint split_lines (data : string) : list string :=
  match data with
  | EmptyString => [EmptyString]
  | String c rest =>
      if Ascii.eqb c newline then EmptyString :: split_lines rest
      else
        match split_lines rest with
        | line :: lines => String c line :: lines
        | [] => [String c EmptyString]
        end
  end.

Definition count_down_reads (r : recovery) : recovery :=
  Recovery (reads_left r - 1) (read_error r) (opens_left r) (open_error r)
    (state_loaded r) (state_error r) (one_day_ago r).

Definition count_down_opens (r : recovery) : recovery :=
  Recovery (reads_left r) (read_error r) (opens_left r - 1) (open_error r)
    (state_loaded r) (state_error r) (one_day_ago r).

Definition flag_read_error (r : recovery) : recovery :=
  Recovery (reads_left r) true (opens_left r) (open_error r)
    (state_loaded r) (state_error r) (one_day_ago r).

Definition flag_state_error (r : recovery) : recovery :=
  Recovery (reads_left r) (read_error r) (opens_left r) (open_error r)
    (state_loaded r) true (one_day_ago r).

Definition flag_state_loaded (r : recovery) : recovery :=
  Recovery (reads_left r) (read_error r) (opens_left r) (open_error r)
    true (state_error r) (one_day_ago r).

(** The join of the callbacks: ready once no read, no open and the state
    file are outstanding. *)
Definition finish_if_joined (r : recovery) : M recovery :=
  if (reads_left r =? 0) && (opens_left r =? 0) && state_loaded r
  then
    modify (with_ready true) ;;
    _flush_queued ;;
    modify (emit (Callback None)) ;;
    ret r
  else ret r.

Section Recovery.

(** The host's [parseInt]; [None] is NaN. *)
Variable parseInt : string -> option Z.

(** [timestamp => timestamp >= one_day_ago] on a parsed line. *)
Definition recent (one_day_ago : Z) (timestamp : option Z) : option Z :=
  match timestamp with
  | Some t => if one_day_ago <=? t then Some t else None
  | None => None
  end.

(** [data.split("\n").map(parseInt).filter(...)] *)
Definition parse_log (one_day_ago : Z) (data : string) : list Z :=
  omap (recent one_day_ago) (parseInt <$> split_lines data).

(** The callback's work on the content of the log: parse and filter, open
    the write stream, put the retained timestamps ahead of the queue, count
    the read and the open, join. *)
Definition load_log (key data : string) (r : recovery) : M recovery :=
  let timestamps := parse_log (one_day_ago r) data in
  let r := count_down_reads r in
  let! key_settings := settings_of key in
  match log key_settings with
  | None => throw TypeError
  | Some path =>
      modify (with_settings
        <[ key := set_stream (Some (createWriteStream path))
                    (draining key_settings) key_settings ]>) ;;
      modify (with_queued (fun queued =>
        <[ key := timestamps ++ default [] (queued !! key) ]> queued)) ;;
      finish_if_joined (count_down_opens r)
  end.

(** The callback [generate_readFile_callback(key)] returns. *)
Definition readFile_callback (key : string) (result : read_result)
    (r : recovery) : M recovery :=
  if read_error r || open_error r || state_error r then ret r
  else
    match result with
    | ReadError code =>
        if negb (String.eqb code "ENOENT")
        then modify (emit (Callback (Some (IOError code)))) ;;
             ret (flag_read_error r)
        else load_log key "" r
    | ReadData data => load_log key data r
    end.

End Recovery.

(** The saved last alerts of one error type in the state file. *)
Record saved_alerts : Type := SavedAlerts {
  saved_minute : option Z;
  saved_hour : option Z;
  saved_day : option Z
}.

Definition restore_alerts (saved : saved_alerts) (s : settings) : settings :=
  Settings (watch s) (log s) (stream s) (draining s)
    (set_last_alert (saved_minute saved) (minute s))
    (set_last_alert (saved_hour saved) (hour s))
    (set_last_alert (saved_day saved) (day s)).

(** The import of the saved last alerts: error types that are not configured
    are skipped. *)
Definition restore_state (json : list (string * saved_alerts)) (r : recovery)
    : M recovery :=
  modify (with_settings (fun all =>
    foldl (fun all '(error_type, saved) => alter (restore_alerts saved) error_type all)
          all json)) ;;
  finish_if_joined (flag_state_loaded r).

(** [read_state_callback], on the parsed content of the state file; a
    missing file reads as the empty object. *)
Definition read_state_callback (result : list (string * saved_alerts) + string)
    (r : recovery) : M recovery :=
  if read_error r || open_error r || state_error r then ret r
  else
    match result with
    | inr code =>
        if negb (String.eqb code "ENOENT")
        then modify (emit (Callback (Some (IOError code)))) ;;
             ret (flag_state_error r)
        else restore_state [] r
    | inl json => restore_state json r
    end.

(** ** Specification vocabulary and sample states *)

(** Non-decreasing, read through [timestamps[i]]. *)
Definition nondecreasing (ts : list Z) : Prop :=
  forall i j x y, i <= j -> at_index ts i = num x -> at_index ts j = num y -> x <= y.

(** [i] is the lower bound of [T] in [S]: everything before it is below [T],
    everything from it on is at least [T]. *)
Definition lower_bound (T : Z) (S : list Z) (i : Z) : Prop :=
  0 <= i <= len S /\
  (forall (j : nat) x, S !! j = Some x -> Z.of_nat j < i -> x < T) /\
  (forall (j : nat) x, S !! j = Some x -> i <= Z.of_nat j -> T <= x).

Definition lower_bound_at (T : Z) (ts : list Z) (i : Z) : Prop :=
  0 <= i <= len ts /\
  (forall j x, at_index ts j = num x -> j < i -> x < T) /\
  (forall j x, at_index ts j = num x -> i <= j -> T <= x).

(** The part of the alerter no write attempt reaches. *)
Definition shell (a : alerter) :=
  (_root a, _started a, _ready a, _from a, _contacts a, effects a).

(** Whether a write attempt under these settings reports success. *)
Definition accepts (s : settings) : bool :=
  negb (truthy_str (log s))
  || (negb (draining s) && match stream s with Some _ => true | None => false end).

(** What the flush leaves for a key whose settings are [s]. *)
Definition flushed (k : string) (s : settings) (a a' : alerter) : Prop :=
  if accepts s
  then _timestamps a' !! k = Some (history k a) /\ _queued a' !! k = None
  else _timestamps a' !! k = _timestamps a !! k /\ _queued a' !! k = _queued a !! k.

(** Every queued key has settings: [_tell] and the recovery only ever queue
    under a configured key. *)
Definition queued_configured (a : alerter) : Prop :=
  forall k, is_Some (_queued a !! k) -> is_Some (_settings a !! k).

(** The state the body of a reached threshold leaves behind, whether it has
    run to its end or was left at the write of the state file. *)
Definition alerted (fs : file_system) (error_type : string) (current_time : Z)
    (check_key : window_key) (s : settings) (a : alerter) : alerter :=
  run (fire fs error_type current_time check_key s) a.

(** A host on which the directory /tmp exists and can be written, and
    nothing else: the write of a file anywhere else throws ENOENT, as the
    write of undefined/_state by an alerter without a root does. *)
Definition tmp_only : file_system := fun path _ =>
  if String.prefix "/tmp/" path then None else Some "ENOENT".

(** A host that takes every write. *)
Definition writable : file_system := fun _ _ => None.

(** Whether the host takes every write of the state file of the alerter. *)
Definition saves (fs : file_system) (a : alerter) : Prop :=
  forall state, fs (state_path a) state = None.

(** How a call that may raise alerts ends: it returns, or it throws the
    error of a refused write of the state file. *)
Definition returns_or_save_fails (fs : file_system) (a : alerter)
    (o : outcome unit) : Prop :=
  o = Return tt \/
  exists code state, o = Throw (IOError code) /\ fs (state_path a) state = Some code.

(** [root("/tmp")] and
    [one("RangeError").minute().on().threshold(1).cooldown(1)] on a fresh
    alerter, then a first occurrence at 60000, which raises the alert. *)
Definition boundary_config : alerter :=
  run (_edit_timespan (in_string "RangeError") Minute
         (fun c => edit_cooldown 1 (edit_threshold 1 (edit_on c))))
      (run (root "/tmp") new_alerter).

Definition boundary_alerted : alerter :=
  run (tell tmp_only 60000 (in_error "RangeError")) boundary_config.

(** The same configuration without a root. *)
Definition rootless_config : alerter :=
  run (_edit_timespan (in_string "RangeError") Minute
         (fun c => edit_cooldown 1 (edit_threshold 1 (edit_on c))))
      new_alerter.

(** [all().minute().on()] with no threshold, and five occurrences queued. *)
Definition unset_threshold_alerter : alerter :=
  with_timestamps <[ ALL := [1000; 1001; 1002; 1003; 1004] ]>
    (run (_edit_timespan (in_string ALL) Minute edit_on) new_alerter).

(** [all().log("/tmp/x")] with its stream open and three entries to write. *)
Definition logging_alerter : alerter :=
  with_queued <[ ALL := [1000; 2000; 3000] ]>
    (with_settings
       (alter (set_stream (Some (createWriteStream "/tmp/x")) false) ALL)
       (run (log_to (in_string ALL) "/tmp/x") new_alerter)).

(** Whether the callbacks are joined once this read and open are counted. *)
Definition joins (r : recovery) : bool :=
  (reads_left r - 1 =? 0) && (opens_left r - 1 =? 0) && state_loaded r.

(** A stand-in for the host's [parseInt] on lines of decimal digits. *)
Fixpoint parse_digits (acc : Z) (line : string) : option Z :=
  match line with
  | EmptyString => Some acc
  | String c rest =>
      let d := Z.of_nat (nat_of_ascii c) - 48 in
      if (0 <=? d) && (d <=? 9) then parse_digits (10 * acc + d) rest else None
  end.

Definition parse_decimal (line : string) : option Z :=
  match line with
  | EmptyString => None
  | _ => parse_digits 0 line
  end.

(** A log holding a stale entry (5000, with the cutoff at 13600000) and two
    recent ones, read back while one occurrence is already queued. *)
Definition recovering_alerter : alerter :=
  with_queued <[ ALL := [99999000] ]>
    (run (start 13600000) (run (log_to (in_string ALL) "/tmp/x") new_alerter)).

(** Noon of 3 November 2024 in New York, the day the clocks went back an
    hour, and what moment makes of one day before it: noon of 2 November,
    25 hours earlier. *)
Definition fall_back_noon : Z := 1730653200000.
Definition fall_back_one_day_ago : Z := 1730563200000.

(** [one("RangeError").watch()], an occurrence at 99999000, and only then
    [all().log("/tmp/x")] and the start: the occurrence was told while
    [_all] had no log path. *)
Definition late_logging_alerter : alerter :=
  run (start 13600000)
    (run (log_to (in_string ALL) "/tmp/x")
       (run (tell tmp_only 99999000 (in_error "RangeError"))
          (run (rewatch (in_string "RangeError")) new_alerter))).

(** The alerters a process can hold: a fresh one, configured, started, told
    occurrences, and called back by the reads of the recovery and by the
    drain events of the streams, each call on whatever the host answers. *)
Inductive reachable : alerter -> Prop :=
  | reach_new : reachable new_alerter
  | reach_edit error timespan_key edit a :
      reachable a -> reachable (run (_edit_timespan error timespan_key edit) a)
  | reach_ignore error a : reachable a -> reachable (run (ignore error) a)
  | reach_rewatch error a : reachable a -> reachable (run (rewatch error) a)
  | reach_log_to error path a : reachable a -> reachable (run (log_to error path) a)
  | reach_log_default error a : reachable a -> reachable (run (log_default error) a)
  | reach_start one_day_ago a : reachable a -> reachable (run (start one_day_ago) a)
  | reach_tell fs t error a : reachable a -> reachable (run (tell fs t error) a)
  | reach_read parseInt key result r a :
      reachable a -> reachable (run (readFile_callback parseInt key result r) a)
  | reach_state result r a :
      reachable a -> reachable (run (read_state_callback result r) a)
  | reach_drain key a : reachable a -> reachable (run (_set_draining key) a)
  | reach_root path a : reachable a -> reachable (run (root path) a)
  | reach_from email a : reachable a -> reachable (run (set_from email) a)
  | reach_contact contacts a : reachable a -> reachable (run (contact contacts) a).

(** The effects an alert for [error_type] consists of. *)
Definition alert_effect_of (error_type : string) (x : effect) : Prop :=
  (exists f to k, x = Sendmail f to (alert_subject error_type (window_name k))) \/
  (exists path state, x = WriteState path state) \/
  (exists k, x = Act error_type k).

(** Settings that differ at most in the stream and its draining flag. *)
Definition same_config (s s' : settings) : Prop :=
  watch s' = watch s /\ log s' = log s /\
  minute s' = minute s /\ hour s' = hour s /\ day s' = day s.

(** The last alerts of the three windows, as [_save] writes them. *)
Definition last_alerts (s : settings) : option Z * option Z * option Z :=
  (last_alert (minute s), last_alert (hour s), last_alert (day s)).

(** How many timestamps of a history are at or after [from]. *)
Definition occurrences_since (from : Z) (timestamps : list Z) : Z :=
  Z.of_nat (length (filter (fun x => from <= x) timestamps)).

(** What a successful write attempt leaves of the settings: the chunk is in
    the stream, and the draining flag is up when the buffer has filled. *)
Definition written (data : list Z) (stream : wstream) (s : settings) : settings :=
  let '(stream', accepted) := stream_write stream (join_lines data) in
  set_stream (Some stream') (negb accepted || draining s) s.

(** A string without a line break. *)
Fixpoint one_line (s : string) : Prop :=
  match s with
  | EmptyString => True
  | String c rest => c <> newline /\ one_line rest
  end.

(** The content of a log file: the chunks written to it, in order. *)
Definition file_content (chunks : list string) : string :=
  foldr String.append EmptyString chunks.

(** The object [_save] serialises. *)
Definition snapshot (a : alerter) : list (string * (option Z * option Z * option Z)) :=
  (fun '(error_type, s) => (error_type, last_alerts s)) <$> map_to_list (_settings a).

(** The object the save of a reached threshold serialises: the window
    already holds the new alert time. *)
Definition alert_state (error_type : string) (current_time : Z)
    (check_key : window_key) (s : settings) (a : alerter)
    : list (string * (option Z * option Z * option Z)) :=
  snapshot
    (with_settings
       <[ error_type :=
          set_timespan check_key
            (set_last_alert (Some current_time) (get_timespan check_key s)) s ]> a).

(** How the body of a reached threshold ends: it returns when the file
    system takes the state file, and throws its error otherwise. *)
Definition save_outcome (fs : file_system) (error_type : string)
    (current_time : Z) (check_key : window_key) (s : settings) (a : alerter)
    : outcome unit :=
  match fs (state_path a) (alert_state error_type current_time check_key s a) with
  | None => Return tt
  | Some code => Throw (IOError code)
  end.

(** The saved state read back from the file: [JSON.parse] of what
    [JSON.stringify] wrote, key by key. *)
Definition read_back (state : list (string * (option Z * option Z * option Z)))
    : list (string * saved_alerts) :=
  (fun '(error_type, (m, h, d)) => (error_type, SavedAlerts m h d)) <$> state.

(** Whether no read, no open and no state load are outstanding. *)
Definition joined (r : recovery) : bool :=
  (reads_left r =? 0) && (opens_left r =? 0) && state_loaded r.

(** The completions the file system delivers to the callbacks of [start]:
    the read of the log of a target, or the read of the state file. *)
Inductive completion : Type :=
  | ReadDone (key : string) (result : read_result)
  | StateDone (result : list (string * saved_alerts) + string).

Definition deliver (parseInt : string -> option Z) (ev : completion) (r : recovery)
    : M recovery :=
  match ev with
  | ReadDone key result => readFile_callback parseInt key result r
  | StateDone result => read_state_callback result r
  end.

(** The completions delivered one after the other, in the order they
    arrive. *)
Fixpoint deliver_all (parseInt : string -> option Z) (evs : list completion)
    (r : recovery) : M recovery :=
  match evs with
  | [] => ret r
  | ev :: evs' => let! r' := deliver parseInt ev r in deliver_all parseInt evs' r'
  end.

(** A completion without an error, a missing file counting as none. *)
Definition succeeded (ev : completion) : bool :=
  match ev with
  | ReadDone _ (ReadData _) | StateDone (inl _) => true
  | ReadDone _ (ReadError code) | StateDone (inr code) => String.eqb code "ENOENT"
  end.

Definition is_read (ev : completion) : bool :=
  match ev with ReadDone _ _ => true | StateDone _ => false end.

Definition reads (evs : list completion) : Z :=
  Z.of_nat (length (List.filter is_read evs)).

Definition states (evs : list completion) : Z :=
  Z.of_nat (length (List.filter (fun ev => negb (is_read ev)) evs)).

(** The closure variables after a completion without an error. *)
Definition advance (ev : completion) (r : recovery) : recovery :=
  match ev with
  | ReadDone _ _ => count_down_opens (count_down_reads r)
  | StateDone _ => flag_state_loaded r
  end.

Definition failed (r : recovery) : bool :=
  read_error r || open_error r || state_error r.

(** An error type that has settings with a log path. *)
Definition logged (a : alerter) (key : string) : Prop :=
  exists s path, _settings a !! key = Some s /\ log s = Some path.

(** The log files of the completions are those of configured error types. *)
Definition targets_logged (a : alerter) (evs : list completion) : Prop :=
  forall key result, ReadDone key result ∈ evs -> logged a key.

(** The error a completion carries, a missing file being none. *)
Definition error_code (ev : completion) : option string :=
  match ev with
  | ReadDone _ (ReadError code) | StateDone (inr code) =>
      if String.eqb code "ENOENT" then None else Some code
  | _ => None
  end.

(** [all().log("/tmp/x")], [one("RangeError").log("/tmp/y").ignore()] *)
Definition ignoring_alerter : alerter :=
  run (ignore (in_string "RangeError"))
    (run (log_to (in_string "RangeError") "/tmp/y")
       (run (log_to (in_string ALL) "/tmp/x") new_alerter)).

(** What the check of an error type leaves of an alerter: the settings of the
    other error types, the timestamps and the queues as they were, of its own
    settings everything but the windows, and as effects the parts of alerts
    for that error type. *)
Definition checked (e : string) (a a' : alerter) : Prop :=
  (forall s, _settings a !! e = Some s ->
     exists s', _settings a' !! e = Some s' /\
       watch s' = watch s /\ log s' = log s /\
       stream s' = stream s /\ draining s' = draining s) /\
  (forall c, c <> e -> _settings a' !! c = _settings a !! c) /\
  _timestamps a' = _timestamps a /\ _queued a' = _queued a /\
  exists es, effects a' = effects a ++ es /\ Forall (alert_effect_of e) es.

(** * Properties *)

(** ** Range index *)

#[local] Arguments js_le : simpl never.
#[local] Arguments js_lt : simpl never.
#[local] Arguments js_gt : simpl never.
#[local] Arguments js_seq : simpl never.
#[local] Arguments at_index : simpl never.

Example find_bound_mid : find_bound (num 20) [10; 20; 20; 30] = Some (num 1).
Proof. reflexivity. Qed.

Example find_bound_dups : find_bound (num 7) [1; 7; 7; 7; 7; 7; 9] = Some (num 1).
Proof. reflexivity. Qed.

Example find_bound_gap : find_bound (num 25) [10; 20; 20; 30] = Some (num 3).
Proof. reflexivity. Qed.

Example find_bound_past : find_bound (num 31) [10; 20; 20; 30] = Some (num 4).
Proof. reflexivity. Qed.

Lemma at_index_num (ts : list Z) (i x : Z) :
  at_index ts i = num x <-> 0 <= i /\ ts !! Z.to_nat i = Some x.
Proof.
  unfold at_index. destruct (Z.ltb_spec i 0) as [Hi|Hi].
  - split; [discriminate | lia].
  - destruct (ts !! Z.to_nat i) as [z|] eqn:E; split.
    + intros [= ->]. auto.
    + intros [_ [= ->]]. reflexivity.
    + discriminate.
    + intros [_ ?]. discriminate.
Qed.

Lemma at_index_in_range (ts : list Z) (i : Z) :
  0 <= i < len ts -> exists x, at_index ts i = num x.
Proof.
  intros [H0 H1]. unfold len in H1.
  destruct (lookup_lt_is_Some_2 ts (Z.to_nat i)) as [x Hx]; [lia|].
  exists x. apply at_index_num. auto.
Qed.

Lemma at_index_out_of_range (ts : list Z) (i : Z) :
  i < 0 \/ len ts <= i -> at_index ts i = undefined.
Proof.
  intros H. unfold at_index. destruct (Z.ltb_spec i 0); [reflexivity|].
  rewrite lookup_ge_None_2; [reflexivity|]. unfold len in H. lia.
Qed.

Lemma at_index_bounds (ts : list Z) (i x : Z) :
  at_index ts i = num x -> 0 <= i < len ts.
Proof.
  intros H. apply at_index_num in H as [H0 H1].
  apply lookup_lt_Some in H1. unfold len. lia.
Qed.

Lemma StronglySorted_lookup_le (ts : list Z) :
  StronglySorted Z.le ts ->
  forall (i j : nat) x y, (i <= j)%nat -> ts !! i = Some x -> ts !! j = Some y -> x <= y.
Proof.
  induction 1 as [|a l Hl IH Hall]; intros i j x y Hij Hi Hj.
  - rewrite lookup_nil in Hi. discriminate.
  - destruct i as [|i], j as [|j]; simpl in *.
    + injection Hi as <-. injection Hj as <-. lia.
    + injection Hi as <-. rewrite Forall_forall in Hall.
      apply Hall. eapply list_elem_of_lookup_2. eassumption.
    + lia.
    + eapply IH; [| eassumption | eassumption]. lia.
Qed.

Lemma StronglySorted_nondecreasing (ts : list Z) :
  StronglySorted Z.le ts -> nondecreasing ts.
Proof.
  intros Hs i j x y Hij Hi Hj.
  apply at_index_num in Hi as [Hi0 Hi]. apply at_index_num in Hj as [Hj0 Hj].
  eapply StronglySorted_lookup_le; [eassumption | | eassumption | eassumption]. lia.
Qed.

Lemma find_bound_defaults (fuel : nat) (target : value) (ts : list Z) :
  _find_bound fuel target ts None None
  = _find_bound fuel target ts (Some 0) (Some (len ts - 1)).
Proof. destruct fuel; reflexivity. Qed.

(** The scan stops: below index 0 the array reads [undefined]. *)
Lemma scan_duplicates_returns (fuel : nat) (t : Z) (ts : list Z) (m : Z) :
  Z.max m 0 < Z.of_nat fuel ->
  exists i, scan_duplicates fuel (num t) ts m = Some i.
Proof.
  revert m. induction fuel as [|fuel IH]; intros m Hm; [lia|].
  simpl. destruct (js_seq (at_index ts (m - 1)) (num t)) eqn:E; [|eauto].
  apply IH. destruct (at_index ts (m - 1)) as [|x] eqn:Hx; [discriminate|].
  apply at_index_bounds in Hx. lia.
Qed.

Lemma scan_duplicates_spec (fuel : nat) (t : Z) (ts : list Z) (m i : Z) :
  scan_duplicates fuel (num t) ts m = Some i ->
  i <= m /\
  (forall j, i <= j < m -> at_index ts j = num t) /\
  at_index ts (i - 1) <> num t.
Proof.
  revert m. induction fuel as [|fuel IH]; intros m; [discriminate|].
  simpl. destruct (js_seq (at_index ts (m - 1)) (num t)) eqn:E.
  - intros H. apply IH in H as (Hle & Hrun & Hstop).
    destruct (at_index ts (m - 1)) as [|x] eqn:Hx; [discriminate|].
    unfold js_seq in E. apply Z.eqb_eq in E. subst x.
    split; [lia|]. split; [|assumption].
    intros j Hj. destruct (Z.eq_dec j (m - 1)) as [->|]; [assumption|].
    apply Hrun. lia.
  - intros [= <-]. split; [lia|]. split; [intros; lia|].
    intros Heq. rewrite Heq in E. unfold js_seq in E. rewrite Z.eqb_refl in E. discriminate.
Qed.

(** The search for a number returns whatever the array holds: the interval
    between [left] and [right] shrinks at every call. *)
Lemma find_bound_interval_returns (fuel : nat) (t : Z) (ts : list Z) (left right : Z) :
  0 <= left <= right -> right <= len ts - 1 ->
  right - left + len ts + 1 <= Z.of_nat fuel ->
  exists v, _find_bound fuel (num t) ts (Some left) (Some right) = Some v.
Proof.
  revert left right. induction fuel as [|fuel IH]; intros left right Hlr Hr Hfuel; [lia|].
  simpl.
  destruct (js_le (num t) (at_index ts 0)); [eauto|].
  destruct (js_gt (num t) (at_index ts (len ts - 1))); [eauto|].
  destruct (Z.eqb_spec left right) as [|Hne]; [eauto|].
  assert (Hmid : left <= (right - left) / 2 + left < right).
  { assert (0 <= (right - left) / 2 < right - left); [|lia].
    split; [apply Z.div_pos; lia | apply Z.div_lt_upper_bound; lia]. }
  destruct (js_seq (at_index ts ((right - left) / 2 + left)) (num t)).
  - destruct (scan_duplicates_returns fuel t ts ((right - left) / 2 + left)) as [i Hi]; [lia|].
    rewrite Hi. simpl. eauto.
  - destruct (js_gt (num t) (at_index ts ((right - left) / 2 + left))).
    + apply IH; lia.
    + destruct (js_lt (num t) (at_index ts ((right - left) / 2 + left))); [|eauto].
      apply IH; lia.
Qed.

(** A search for a number always returns. *)
Lemma find_bound_num_returns (t : Z) (ts : list Z) :
  exists v, find_bound (num t) ts = Some v.
Proof.
  unfold find_bound. rewrite find_bound_defaults.
  destruct ts as [|x ts].
  - exists undefined. reflexivity.
  - apply find_bound_interval_returns; unfold bound_fuel, len; simpl length; lia.
Qed.

(** More fuel does not change a result. *)
Lemma scan_duplicates_fuel (fuel fuel' : nat) target ts m i :
  (fuel <= fuel')%nat ->
  scan_duplicates fuel target ts m = Some i ->
  scan_duplicates fuel' target ts m = Some i.
Proof.
  revert fuel' m. induction fuel as [|fuel IH]; intros fuel' m Hle; [discriminate|].
  destruct fuel' as [|fuel']; [lia|]. simpl.
  destruct (js_seq (at_index ts (m - 1)) target); [|trivial].
  apply IH. lia.
Qed.

Lemma find_bound_fuel (fuel fuel' : nat) target ts left right v :
  (fuel <= fuel')%nat ->
  _find_bound fuel target ts left right = Some v ->
  _find_bound fuel' target ts left right = Some v.
Proof.
  revert fuel' left right. induction fuel as [|fuel IH]; intros fuel' left right Hle; [discriminate|].
  destruct fuel' as [|fuel']; [lia|]. simpl.
  repeat (match goal with |- context [if ?b then _ else _] => destruct b end; trivial).
  - destruct (scan_duplicates fuel target ts _) as [i|] eqn:E; [|discriminate].
    apply (scan_duplicates_fuel fuel fuel') in E; [|lia]. rewrite E. trivial.
  - apply IH. lia.
  - apply IH. lia.
Qed.

(** The one search that never returns: [undefined] in the empty history. *)
Lemma find_bound_hangs (fuel : nat) :
  _find_bound fuel undefined [] None None = None.
Proof.
  destruct fuel as [|fuel]; [reflexivity|]. simpl.
  assert (H : forall m, scan_duplicates fuel undefined [] m = None).
  { induction fuel as [|fuel IH]; intros m; [reflexivity|]. simpl.
    rewrite at_index_out_of_range; [|unfold len; simpl; lia].
    unfold js_seq. apply IH. }
  unfold js_le, js_gt, js_lt, js_seq, at_index, len. simpl. rewrite H. reflexivity.
Qed.

Lemma js_compare_undefined (b : value) :
  js_le undefined b = false /\ js_gt undefined b = false /\ js_lt undefined b = false.
Proof. destruct b; repeat split. Qed.

(** One call of the search on explicit bounds. *)
Lemma find_bound_step (fuel : nat) (target : value) (ts : list Z) (left right : Z) :
  _find_bound (S fuel) target ts (Some left) (Some right) =
    if js_le target (at_index ts 0) then Some (num 0)
    else if js_gt target (at_index ts (len ts - 1)) then Some (num (len ts))
    else if left =? right then Some (num left)
    else
      let middle := (right - left) / 2 + left in
      if js_seq (at_index ts middle) target
      then num <$> scan_duplicates fuel target ts middle
      else if js_gt target (at_index ts middle)
      then _find_bound fuel target ts (Some (middle + 1)) (Some right)
      else if js_lt target (at_index ts middle)
      then _find_bound fuel target ts (Some left) (Some middle)
      else Some undefined.
Proof. reflexivity. Qed.

(** The search for [undefined] in a non-empty history returns at once. *)
Lemma find_bound_undefined_returns (x : Z) (ts : list Z) :
  exists v, find_bound undefined (x :: ts) = Some v.
Proof.
  unfold find_bound, bound_fuel. rewrite find_bound_defaults.
  assert (Hlen : 0 < len (x :: ts)) by (unfold len; simpl; lia).
  generalize (S (2 * length (x :: ts)))%nat. intros fuel.
  generalize dependent (x :: ts). clear x ts. intros ts Hlen.
  rewrite find_bound_step. cbv zeta.
  destruct (js_compare_undefined (at_index ts 0)) as (-> & _ & _).
  destruct (js_compare_undefined (at_index ts (len ts - 1))) as (_ & -> & _).
  destruct (0 =? len ts - 1); [eauto|].
  assert (Hmid : 0 <= (len ts - 1 - 0) / 2 + 0 < len ts).
  { rewrite Z.add_0_r, Z.sub_0_r. split; [apply Z.div_pos; lia|].
    apply Z.div_lt_upper_bound; lia. }
  destruct (at_index_in_range ts _ Hmid) as [y Hy]. rewrite Hy.
  destruct (js_compare_undefined (num y)) as (_ & -> & ->).
  unfold js_seq. eauto.
Qed.

(** [find_bound] answers [None] only for a search that no fuel ends. *)
Lemma find_bound_None (target : value) (ts : list Z) :
  find_bound target ts = None ->
  forall fuel, _find_bound fuel target ts None None = None.
Proof.
  intros H fuel. destruct target as [|t].
  - destruct ts as [|x ts]; [apply find_bound_hangs|].
    destruct (find_bound_undefined_returns x ts) as [v Hv]. congruence.
  - destruct (find_bound_num_returns t ts) as [v Hv]. congruence.
Qed.

Lemma lower_bound_at_lookup (T : Z) (ts : list Z) (i : Z) :
  lower_bound_at T ts i -> lower_bound T ts i.
Proof.
  intros (Hi & Hlt & Hge). split; [assumption|]. split.
  - intros j x Hj Hji. apply (Hlt (Z.of_nat j)); [|assumption].
    apply at_index_num. rewrite Nat2Z.id. split; [lia | assumption].
  - intros j x Hj Hji. apply (Hge (Z.of_nat j)); [|assumption].
    apply at_index_num. rewrite Nat2Z.id. split; [lia | assumption].
Qed.

Lemma scan_duplicates_nonneg (fuel : nat) (t : Z) (ts : list Z) (m i : Z) :
  scan_duplicates fuel (num t) ts m = Some i -> 0 <= m -> 0 <= i.
Proof.
  revert m. induction fuel as [|fuel IH]; intros m; [discriminate|].
  simpl. destruct (js_seq (at_index ts (m - 1)) (num t)) eqn:E.
  - intros H _. apply (IH _ H).
    destruct (at_index ts (m - 1)) as [|x] eqn:Hx; [discriminate|].
    apply at_index_bounds in Hx. lia.
  - intros [= <-]. trivial.
Qed.

(** What the scan returns in a non-decreasing history, started on an
    occurrence of the target. *)
Lemma scan_duplicates_lower_bound (fuel : nat) (T : Z) (ts : list Z) (m i : Z) :
  nondecreasing ts ->
  at_index ts m = num T ->
  scan_duplicates fuel (num T) ts m = Some i ->
  lower_bound_at T ts i.
Proof.
  intros Hnd Hm Hscan.
  pose proof (at_index_bounds _ _ _ Hm) as Hmb.
  pose proof (scan_duplicates_nonneg _ _ _ _ _ Hscan ltac:(lia)) as Hi0.
  apply scan_duplicates_spec in Hscan as (Him & Hrun & Hstop).
  assert (Hi : at_index ts i = num T).
  { destruct (Z.eq_dec i m) as [->|]; [assumption | apply Hrun; lia]. }
  split; [lia|]. split.
  - intros j x Hj Hji.
    pose proof (at_index_bounds _ _ _ Hj) as Hjb.
    destruct (at_index_in_range ts (i - 1)) as [y Hy]; [lia|].
    assert (x <= y) by (apply (Hnd j (i - 1)); [lia | assumption | assumption]).
    assert (y <= T) by (apply (Hnd (i - 1) i); [lia | assumption | assumption]).
    assert (y <> T) by (intros ->; contradiction).
    lia.
  - intros j x Hj Hij. apply (Hnd i j); assumption.
Qed.

Lemma find_bound_interval_spec (fuel : nat) (T : Z) (ts : list Z) (left right : Z) v :
  nondecreasing ts ->
  0 <= left <= right -> right <= len ts - 1 ->
  (forall j x, at_index ts j = num x -> j < left -> x < T) ->
  (forall x, at_index ts right = num x ->
             js_gt (num T) (at_index ts (len ts - 1)) = false -> T <= x) ->
  _find_bound fuel (num T) ts (Some left) (Some right) = Some v ->
  exists i, v = num i /\ lower_bound_at T ts i.
Proof.
  intros Hnd. revert left right.
  induction fuel as [|fuel IH]; intros left right Hlr Hr Hbelow Habove; [discriminate|].
  simpl.
  destruct (at_index_in_range ts 0) as [x0 H0]; [lia|].
  destruct (at_index_in_range ts (len ts - 1)) as [xl Hl]; [lia|].
  destruct (js_le (num T) (at_index ts 0)) eqn:Efirst.
  { intros [= <-]. exists 0. split; [reflexivity|].
    rewrite H0 in Efirst. unfold js_le in Efirst. apply Z.leb_le in Efirst.
    split; [lia|]. split.
    - intros j x Hj Hlt. apply at_index_bounds in Hj. lia.
    - intros j x Hj Hge. assert (x0 <= x) by (apply (Hnd 0 j); assumption). lia. }
  destruct (js_gt (num T) (at_index ts (len ts - 1))) eqn:Elast.
  { intros [= <-]. exists (len ts). split; [reflexivity|].
    rewrite Hl in Elast. unfold js_gt, js_lt in Elast. apply Z.ltb_lt in Elast.
    split; [lia|]. split.
    - intros j x Hj Hlt.
      assert (x <= xl) by (apply (Hnd j (len ts - 1)); [lia | assumption | assumption]).
      lia.
    - intros j x Hj Hge. apply at_index_bounds in Hj. lia. }
  destruct (Z.eqb_spec left right) as [->|Hne].
  { intros [= <-]. exists right. split; [reflexivity|].
    destruct (at_index_in_range ts right) as [xr Hxr]; [lia|].
    pose proof (Habove _ Hxr eq_refl) as HT.
    split; [lia|]. split; [assumption|].
    intros j x Hj Hge. assert (xr <= x) by (apply (Hnd right j); assumption). lia. }
  assert (Hmid : left <= (right - left) / 2 + left < right).
  { assert (0 <= (right - left) / 2 < right - left); [|lia].
    split; [apply Z.div_pos; lia | apply Z.div_lt_upper_bound; lia]. }
  set (middle := (right - left) / 2 + left) in *.
  destruct (at_index_in_range ts middle) as [xm Hxm]; [lia|].
  rewrite Hxm.
  destruct (js_seq (num xm) (num T)) eqn:Ehit.
  { unfold js_seq in Ehit. apply Z.eqb_eq in Ehit. subst xm.
    destruct (scan_duplicates fuel (num T) ts middle) as [i|] eqn:Escan; [|discriminate].
    intros [= <-]. exists i. split; [reflexivity|].
    eapply scan_duplicates_lower_bound; eassumption. }
  unfold js_seq in Ehit. apply Z.eqb_neq in Ehit.
  destruct (js_gt (num T) (num xm)) eqn:Egt.
  { unfold js_gt, js_lt in Egt. apply Z.ltb_lt in Egt.
    apply IH; [lia | lia | | assumption].
    intros j x Hj Hlt.
    assert (x <= xm) by (apply (Hnd j middle); [lia | assumption | assumption]).
    lia. }
  destruct (js_lt (num T) (num xm)) eqn:Elt.
  { unfold js_lt in Elt. apply Z.ltb_lt in Elt.
    apply IH; [lia | lia | assumption |].
    intros x Hx _. rewrite Hxm in Hx. injection Hx as <-. lia. }
  unfold js_gt, js_lt in Egt, Elt. apply Z.ltb_ge in Egt, Elt. lia.
Qed.

(** X1: in a non-empty non-decreasing history, the search for a number returns
    its lower bound: the first index holding a value at least the target,
    the first of a run of duplicates included, or the length. *)
Theorem find_bound_lower_bound (T : Z) (S : list Z) :
  S <> [] -> StronglySorted Z.le S ->
  exists i, find_bound (num T) S = Some (num i) /\ lower_bound T S i.
Proof.
  intros Hne Hsorted.
  destruct (find_bound_num_returns T S) as [v Hv].
  assert (Hlen : 0 < len S) by (destruct S; [congruence | unfold len; simpl; lia]).
  unfold find_bound in *. rewrite find_bound_defaults in *.
  pose proof Hv as Hspec.
  apply find_bound_interval_spec in Hspec as (i & -> & Hi).
  - exists i. split; [assumption | apply lower_bound_at_lookup; assumption].
  - apply StronglySorted_nondecreasing. assumption.
  - lia.
  - lia.
  - intros j x Hj Hlt. apply at_index_bounds in Hj. lia.
  - intros x Hx Hgt. rewrite Hx in Hgt. unfold js_gt, js_lt in Hgt.
    apply Z.ltb_ge in Hgt. assumption.
Qed.

(** The lower bound is unique, so [find_bound_lower_bound] pins the result. *)
Lemma lower_bound_unique (T : Z) (S : list Z) (i j : Z) :
  lower_bound T S i -> lower_bound T S j -> i = j.
Proof.
  intros (Hi & Hilt & Hige) (Hj & Hjlt & Hjge).
  destruct (Z.lt_trichotomy i j) as [Hlt|[->|Hlt]]; [|reflexivity|].
  - destruct (lookup_lt_is_Some_2 S (Z.to_nat i)) as [x Hx]; [unfold len in *; lia|].
    pose proof (Hige _ _ Hx ltac:(lia)). pose proof (Hjlt _ _ Hx ltac:(lia)). lia.
  - destruct (lookup_lt_is_Some_2 S (Z.to_nat j)) as [x Hx]; [unfold len in *; lia|].
    pose proof (Hjge _ _ Hx ltac:(lia)). pose proof (Hilt _ _ Hx ltac:(lia)). lia.
Qed.

(** ** Write attempts and the flush *)

Lemma settings_of_Some (k : string) (a : alerter) (s : settings) :
  _settings a !! k = Some s -> settings_of k a = (Return s, a).
Proof. intros H. unfold settings_of. rewrite H. reflexivity. Qed.

Lemma settings_of_None (k : string) (a : alerter) :
  _settings a !! k = None -> settings_of k a = (Throw TypeError, a).
Proof. intros H. unfold settings_of. rewrite H. reflexivity. Qed.

(** A write attempt returns, touches nothing but the stream and the
    draining flag of its own error type, and its verdict is [accepts]. *)
Lemma write_spec (k : string) (data : list Z) (a : alerter) (s : settings) :
  _settings a !! k = Some s ->
  exists a', _write k data a = (Return (accepts s), a') /\
    _timestamps a' = _timestamps a /\ _queued a' = _queued a /\
    shell a' = shell a /\
    (forall k', k' <> k -> _settings a' !! k' = _settings a !! k') /\
    (exists s', _settings a' !! k = Some s' /\
       watch s' = watch s /\ log s' = log s /\
       minute s' = minute s /\ hour s' = hour s /\ day s' = day s).
Proof.
  intros Hs. unfold _write, bind. rewrite (settings_of_Some _ _ _ Hs).
  unfold accepts.
  destruct (truthy_str (log s)); simpl.
  2:{ exists a. repeat split; eauto 10. }
  destruct (draining s) eqn:Hd; simpl.
  { exists a. repeat split; eauto 10. }
  destruct (stream s) as [st|] eqn:Hst.
  2:{ exists a. repeat split; eauto 10. }
  destruct (stream_write st (join_lines data)) as [st' ok] eqn:Hw.
  unfold modify, ret. simpl.
  eexists. split; [reflexivity|]. simpl.
  repeat split.
  - intros k' Hk'. apply lookup_insert_ne. congruence.
  - rewrite lookup_insert_eq. eexists. split; [reflexivity|]. repeat split.
Qed.

Lemma write_verdict (k : string) (data : list Z) (a : alerter) (s : settings) :
  _settings a !! k = Some s -> (_write k data a).1 = Return (accepts s).
Proof.
  intros Hs. destruct (write_spec k data a s Hs) as (a' & -> & _). reflexivity.
Qed.

Lemma history_eq (k : string) (a a' : alerter) :
  _timestamps a' !! k = _timestamps a !! k ->
  _queued a' !! k = _queued a !! k ->
  history k a' = history k a.
Proof. intros H1 H2. unfold history. rewrite H1, H2. reflexivity. Qed.

Lemma flushed_history (k : string) (s : settings) (a a' : alerter) :
  flushed k s a a' -> history k a' = history k a.
Proof.
  unfold flushed. destruct (accepts s); intros [H1 H2].
  - unfold history at 1. rewrite H1, H2. simpl. apply app_nil_r.
  - apply history_eq; assumption.
Qed.

Lemma flush_key_spec (k : string) (a : alerter) (s : settings) :
  _settings a !! k = Some s ->
  exists a', flush_key k a = (Return tt, a') /\
    flushed k s a a' /\
    shell a' = shell a /\
    (forall k', k' <> k ->
       _timestamps a' !! k' = _timestamps a !! k' /\
       _queued a' !! k' = _queued a !! k' /\
       _settings a' !! k' = _settings a !! k') /\
    (exists s', _settings a' !! k = Some s' /\
       watch s' = watch s /\ log s' = log s /\
       minute s' = minute s /\ hour s' = hour s /\ day s' = day s).
Proof.
  intros Hs. unfold flush_key, bind, gets.
  destruct (write_spec k (default [] (_queued a !! k)) a s Hs)
    as (a1 & Hw & Hts & Hq & Heff & Hother & Hown).
  rewrite Hw. unfold flushed.
  destruct (accepts s).
  - unfold modify. eexists. split; [reflexivity|]. simpl.
    repeat split.
    + rewrite lookup_insert_eq, Hts, Hq. reflexivity.
    + apply lookup_delete_eq.
    + assumption.
    + rewrite lookup_insert_ne by congruence. rewrite Hts. reflexivity.
    + rewrite lookup_delete_ne by congruence. rewrite Hq. reflexivity.
    + apply Hother. assumption.
    + assumption.
  - exists a1. unfold ret. split; [reflexivity|].
    repeat split; try assumption.
    + rewrite Hts. reflexivity.
    + rewrite Hq. reflexivity.
    + rewrite Hts. reflexivity.
    + rewrite Hq. reflexivity.
    + apply Hother. assumption.
Qed.

(** The flush visits every key once, whatever the order. *)
Lemma for_in_flush (l : list string) :
  NoDup l -> forall a,
  (forall k, k ∈ l -> is_Some (_settings a !! k)) ->
  exists a', for_in l flush_key a = (Return tt, a') /\
    shell a' = shell a /\
    (forall k, k ∉ l ->
       _timestamps a' !! k = _timestamps a !! k /\
       _queued a' !! k = _queued a !! k /\
       _settings a' !! k = _settings a !! k) /\
    (forall k, k ∈ l ->
       exists s s', _settings a !! k = Some s /\ flushed k s a a' /\
         _settings a' !! k = Some s' /\
         watch s' = watch s /\ log s' = log s /\
         minute s' = minute s /\ hour s' = hour s /\ day s' = day s).
Proof.
  induction 1 as [|k l Hk Hnd IH]; intros a Hcfg.
  - exists a. split; [reflexivity|]. split; [reflexivity|]. split; [auto|].
    intros k Hk. apply elem_of_nil in Hk. contradiction.
  - destruct (Hcfg k) as [s Hs]; [left|].
    destruct (flush_key_spec k a s Hs) as (a1 & Hrun & Hfl & Heff & Hother & Hown).
    destruct (IH a1) as (a' & Hrun' & Heff' & Hout & Hin).
    { intros k' Hk'. destruct (Hother k') as (_ & _ & ->); [intros ->; contradiction|].
      apply Hcfg. right. assumption. }
    exists a'. split.
    { simpl. unfold bind. rewrite Hrun. assumption. }
    split; [congruence|]. split.
    + intros k' Hk'. apply not_elem_of_cons in Hk' as [Hne Hl].
      destruct (Hout k' Hl) as (-> & -> & ->). apply Hother. assumption.
    + intros k' Hk'. apply elem_of_cons in Hk' as [->|Hl].
      * destruct (Hout k Hk) as (Hts & Hq & Hst).
        destruct Hown as (s' & Hs' & Hsame).
        exists s, s'. split; [assumption|]. split.
        { unfold flushed in *. rewrite Hts, Hq. assumption. }
        split; [congruence | assumption].
      * assert (k' <> k) by (intros ->; contradiction).
        destruct (Hother k') as (Hts & Hq & Hst); [assumption|].
        destruct (Hin k' Hl) as (s1 & s' & Hs1 & Hfl1 & Hs' & Hsame).
        exists s1, s'. split; [congruence|]. split; [|auto].
        unfold flushed in *. rewrite <- Hts, <- Hq.
        rewrite (history_eq k' a a1) in Hfl1 by assumption. assumption.
Qed.

Lemma keys_NoDup {A} (m : gmap string A) : NoDup (keys m).
Proof. apply NoDup_fst_map_to_list. Qed.

Lemma elem_of_keys {A} (m : gmap string A) (k : string) :
  k ∈ keys m <-> is_Some (m !! k).
Proof.
  unfold keys. rewrite list_elem_of_fmap. split.
  - intros [[k' x] [-> H]]. apply elem_of_map_to_list in H. eauto.
  - intros [x H]. exists (k, x). split; [reflexivity|].
    apply elem_of_map_to_list. assumption.
Qed.

Lemma flush_queued_spec (a : alerter) :
  queued_configured a ->
  exists a', _flush_queued a = (Return tt, a') /\
    shell a' = shell a /\
    (forall k, history k a' = history k a) /\
    (forall k, _queued a !! k = None ->
       _timestamps a' !! k = _timestamps a !! k /\ _queued a' !! k = None /\
       _settings a' !! k = _settings a !! k) /\
    (forall k, is_Some (_queued a !! k) ->
       exists s s', _settings a !! k = Some s /\ flushed k s a a' /\
         _settings a' !! k = Some s' /\
         watch s' = watch s /\ log s' = log s /\
         minute s' = minute s /\ hour s' = hour s /\ day s' = day s).
Proof.
  intros Hcfg. unfold _flush_queued.
  destruct (for_in_flush (keys (_queued a)) (keys_NoDup _) a)
    as (a' & Hrun & Heff & Hout & Hin).
  { intros k Hk. apply Hcfg, elem_of_keys. assumption. }
  exists a'. split; [assumption|]. split; [assumption|].
  assert (Hnone : forall k, _queued a !! k = None -> k ∉ keys (_queued a)).
  { intros k Hk Hin'. apply elem_of_keys in Hin'. rewrite Hk in Hin'.
    destruct Hin' as [? ?]. discriminate. }
  split; [|split].
  - intros k. destruct (_queued a !! k) as [q|] eqn:Hq.
    + destruct (Hin k) as (s & s' & _ & Hfl & _); [apply elem_of_keys; eauto|].
      eapply flushed_history. eassumption.
    + destruct (Hout k (Hnone k Hq)) as (Hts & Hq' & _).
      apply history_eq; assumption.
  - intros k Hq. destruct (Hout k (Hnone k Hq)) as (Hts & Hq' & Hst).
    rewrite Hq' . auto.
  - intros k Hk. apply Hin, elem_of_keys. assumption.
Qed.

Lemma find_range_history (k : string) (range : bounds) (a a' : alerter) :
  history k a' = history k a -> _find_range k range a' = _find_range k range a.
Proof. unfold _find_range, history. intros ->. reflexivity. Qed.

Lemma queued_configured_dec (a : alerter) :
  forallb (fun k => bool_decide (is_Some (_settings a !! k))) (keys (_queued a)) = true ->
  queued_configured a.
Proof.
  intros H k Hk. rewrite forallb_forall in H.
  apply elem_of_keys, list_elem_of_In, H in Hk.
  apply bool_decide_eq_true in Hk. assumption.
Qed.

(** ** Threshold evaluator *)

(** A window query as [_check] issues it always returns. *)
Lemma find_range_from_returns (k : string) (f : Z) (a : alerter) :
  exists range, _find_range k (Range (num f) undefined) a = Some range.
Proof.
  unfold _find_range. simpl.
  destruct (negb (f =? 0)).
  - destruct (find_bound_num_returns f
      (default [] (_timestamps a !! k) ++ default [] (_queued a !! k))) as [v ->].
    simpl. eauto.
  - simpl. eauto.
Qed.

Lemma fire_spec (fs : file_system) (e : string) (t : Z) (k : window_key)
    (s : settings) (a : alerter) :
  let s' := set_timespan k (set_last_alert (Some t) (get_timespan k s)) s in
  fire fs e t k s a = (save_outcome fs e t k s a, alerted fs e t k s a) /\
  _settings (alerted fs e t k s a) = <[ e := s' ]> (_settings a) /\
  _timestamps (alerted fs e t k s a) = _timestamps a /\
  _queued (alerted fs e t k s a) = _queued a /\
  _root (alerted fs e t k s a) = _root a /\
  effects (alerted fs e t k s a)
  = effects a ++
    [ Sendmail (_from a) (String.concat ", " (_contacts a))
        (alert_subject e (window_name k));
      WriteState (state_path a) (alert_state e t k s a) ] ++
    match save_outcome fs e t k s a with Return _ => [Act e k] | _ => [] end.
Proof.
  intros s'. unfold alerted, run, save_outcome.
  set (state := alert_state e t k s a).
  assert (H : fire fs e t k s a =
    match fs (state_path a) state with
    | None => (Return tt,
               emit (Act e k) (emit (WriteState (state_path a) state)
                 (emit (Sendmail (_from a) (String.concat ", " (_contacts a))
                         (alert_subject e (window_name k)))
                    (with_settings <[ e := s' ]> a))))
    | Some code => (Throw (IOError code),
               emit (WriteState (state_path a) state)
                 (emit (Sendmail (_from a) (String.concat ", " (_contacts a))
                         (alert_subject e (window_name k)))
                    (with_settings <[ e := s' ]> a)))
    end).
  { unfold fire, _alert, _save, bind, modify. simpl.
    change (state_path _) with (state_path a).
    change (_ <$> map_to_list (<[ e := _ ]> (_settings a))) with state.
    destruct (fs (state_path a) state); reflexivity. }
  rewrite H. destruct (fs (state_path a) state); simpl; repeat split;
    rewrite <- ?app_assoc; reflexivity.
Qed.

(** One turn of the loop either leaves the alerter as it is or runs the body
    of a reached threshold. *)
Lemma check_window_spec (fs : file_system) (e : string) (t : Z) (k : window_key)
    (a : alerter) (s : settings) :
  _settings a !! e = Some s ->
  exists range,
    _find_range e (Range (num (t - window k)) undefined) a = Some range /\
    check_window fs e t k a =
      if enabled (get_timespan k s)
         && negb (cooling_down (get_timespan k s) t)
         && reaches (error_count range) (threshold (get_timespan k s))
      then fire fs e t k s a
      else (Return tt, a).
Proof.
  intros Hs. destruct (find_range_from_returns e (t - window k) a) as [range Hr].
  exists range. split; [assumption|].
  unfold check_window, bind. rewrite (settings_of_Some _ _ _ Hs).
  destruct (enabled (get_timespan k s)); [|reflexivity]. simpl.
  destruct (cooling_down (get_timespan k s) t); [reflexivity|]. simpl.
  unfold gets. rewrite Hr.
  destruct (reaches (error_count range) (threshold (get_timespan k s))); reflexivity.
Qed.

Lemma append_cancel_l (p x y : string) : p +:+ x = p +:+ y -> x = y.
Proof. induction p as [|c p IH]; simpl; [trivial|]. intros [= H]. auto. Qed.

Lemma alert_subject_window (e : string) (k w : window_key) :
  alert_subject e (window_name k) = alert_subject e (window_name w) -> k = w.
Proof.
  unfold alert_subject. intros H.
  do 3 apply append_cancel_l in H.
  destruct k, w; simpl in H; first [reflexivity | discriminate].
Qed.

Lemma get_set_timespan_ne (k w : window_key) (c : timespan) (s : settings) :
  k <> w -> get_timespan w (set_timespan k c s) = get_timespan w s.
Proof. destruct k, w; simpl; congruence. Qed.

Lemma get_set_timespan_eq (k : window_key) (c : timespan) (s : settings) :
  get_timespan k (set_timespan k c s) = c.
Proof. destruct k; reflexivity. Qed.

Lemma reaches_undefined (n : option Z) : reaches n None = false.
Proof. destruct n; reflexivity. Qed.

Lemma fire_outcome (fs : file_system) (e : string) (t : Z) (k : window_key)
    (s : settings) (a : alerter) :
  returns_or_save_fails fs a (fire fs e t k s a).1 /\
  (saves fs a -> (fire fs e t k s a).1 = Return tt).
Proof.
  destruct (fire_spec fs e t k s a) as (-> & _). simpl. unfold save_outcome.
  set (state := alert_state e t k s a). split.
  - destruct (fs (state_path a) state) as [code|] eqn:Hfs; [right; eauto | left; reflexivity].
  - intros Hsaves. rewrite (Hsaves state). reflexivity.
Qed.

(** Whatever a turn of the loop does and however it ends, the same error
    types stay configured and the history is untouched; it ends by
    returning, or by throwing the error of a refused state file. *)
Lemma check_window_frame (fs : file_system) (e : string) (t : Z) (k : window_key)
    (a : alerter) (s : settings) :
  _settings a !! e = Some s ->
  exists o a', check_window fs e t k a = (o, a') /\
    returns_or_save_fails fs a o /\
    (saves fs a -> o = Return tt) /\
    is_Some (_settings a' !! e) /\
    (forall c, c <> e -> _settings a' !! c = _settings a !! c) /\
    _timestamps a' = _timestamps a /\ _queued a' = _queued a /\
    _root a' = _root a.
Proof.
  intros Hs. destruct (check_window_spec fs e t k a s Hs) as (range & _ & ->).
  destruct (fire_spec fs e t k s a) as (Hrun & Hst & Hts & Hq & Hroot & _).
  destruct (fire_outcome fs e t k s a) as (Ho & Hsaves).
  destruct (_ && _).
  - rewrite Hrun in *. eexists _, _. split; [reflexivity|].
    split; [exact Ho|]. split; [exact Hsaves|].
    rewrite Hst, Hts, Hq, Hroot.
    split; [rewrite lookup_insert_eq; eauto|].
    split; [|auto]. intros c Hc. apply lookup_insert_ne. congruence.
  - exists (Return tt), a. split; [reflexivity|]. split; [left; reflexivity|]. eauto 10.
Qed.

(** The three turns of [_check], one after the other: what holds of no
    turn, composes, and holds of every single turn holds of the whole
    check, also when a turn throws and the later ones are not taken. *)
Lemma check_sequence (fs : file_system) (e : string) (t : Z)
    (Q : alerter -> outcome unit -> alerter -> Prop) :
  (forall a, Q a (Return tt) a) ->
  (forall a b o c, Q a (Return tt) b -> Q b o c -> Q a o c) ->
  (forall k a, is_Some (_settings a !! e) ->
     Q a (check_window fs e t k a).1 (check_window fs e t k a).2) ->
  forall a, is_Some (_settings a !! e) -> Q a (_check fs e t a).1 (_check fs e t a).2.
Proof.
  intros Hret Hseq Hstep a [s Hs]. unfold _check, bind.
  rewrite (settings_of_Some _ _ _ Hs).
  pose proof (Hstep Minute a (ex_intro _ s Hs)) as H1.
  destruct (check_window_frame fs e t Minute a s Hs) as (o1 & a1 & E1 & _ & _ & [s1 Hs1] & _).
  rewrite E1 in *. simpl in H1.
  destruct o1 as [[]| |]; [|exact H1|exact H1].
  pose proof (Hstep Hour a1 (ex_intro _ s1 Hs1)) as H2.
  destruct (check_window_frame fs e t Hour a1 s1 Hs1) as (o2 & a2 & E2 & _ & _ & [s2 Hs2] & _).
  rewrite E2 in *. simpl in H2.
  destruct o2 as [[]| |]; [|exact (Hseq _ _ _ _ H1 H2)|exact (Hseq _ _ _ _ H1 H2)].
  pose proof (Hstep Day a2 (ex_intro _ s2 Hs2)) as H3.
  apply (Hseq _ _ _ _ H1). apply (Hseq _ _ _ _ H2).
  destruct (check_window fs e t Day a2) as [o3 a3]. exact H3.
Qed.

Lemma returns_or_save_fails_root (fs : file_system) (a b : alerter) (o : outcome unit) :
  _root b = _root a -> returns_or_save_fails fs b o -> returns_or_save_fails fs a o.
Proof. unfold returns_or_save_fails, state_path. intros ->. trivial. Qed.

Lemma saves_root (fs : file_system) (a b : alerter) :
  _root b = _root a -> saves fs a -> saves fs b.
Proof. unfold saves, state_path. intros ->. trivial. Qed.

Lemma check_frame (fs : file_system) (e : string) (t : Z) (a : alerter) :
  is_Some (_settings a !! e) ->
  exists o a', _check fs e t a = (o, a') /\
    returns_or_save_fails fs a o /\
    (saves fs a -> o = Return tt) /\
    is_Some (_settings a' !! e) /\
    (forall c, c <> e -> _settings a' !! c = _settings a !! c) /\
    _timestamps a' = _timestamps a /\ _queued a' = _queued a /\
    _root a' = _root a.
Proof.
  intros He.
  pose proof (check_sequence fs e t
    (fun a o a' =>
       returns_or_save_fails fs a o /\
       (saves fs a -> o = Return tt) /\
       (is_Some (_settings a !! e) -> is_Some (_settings a' !! e)) /\
       (forall c, c <> e -> _settings a' !! c = _settings a !! c) /\
       _timestamps a' = _timestamps a /\ _queued a' = _queued a /\
       _root a' = _root a)) as H.
  destruct (_check fs e t a) as [o a'] eqn:E. exists o, a'. split; [reflexivity|].
  specialize (H ltac:(intros; repeat split; auto; left; reflexivity)).
  simpl in H. destruct (H) with (a := a) as (H1 & H2 & H3 & H4 & H5 & H6 & H7);
    [| |assumption|rewrite E in *; simpl in *; auto 10].
  - intros x y o' z (_ & _ & Ka & Oa & Ta & Qa & Ra) (Ob & Sb & Kb & Ob' & Tb & Qb & Rb).
    split; [eapply returns_or_save_fails_root; eassumption|].
    split; [intros Hsv; apply Sb; eapply saves_root; eassumption|].
    split; [auto|]. split; [intros c Hc; rewrite Ob', Oa by assumption; reflexivity|].
    split; [congruence|]. split; congruence.
  - intros k x [s Hs].
    destruct (check_window_frame fs e t k x s Hs)
      as (o' & x' & -> & Ho & Hsv & Hk & Hoth & Hts & Hq & Hr).
    simpl. auto 10.
Qed.

(** C3, as stated, fails at the boundary: one minute of cooldown, last alert
    at 60000, check at 120000.  The elapsed time is not below the cooldown,
    yet the guard holds and the occurrence at 120000 raises nothing, while
    one millisecond later it does (on a host that takes the state file). *)
Lemma cooldown_boundary_counterexample :
  ~ (cooling_down (Timespan true (Some 1) (Some 1) (Some 60000)) 120000 = true
     <-> 120000 - 60000 < 1 * 60000) /\
  minute <$> (_settings boundary_alerted !! "RangeError")
    = Some (Timespan true (Some 1) (Some 1) (Some 60000)) /\
  effects (run (tell tmp_only 120000 (in_error "RangeError")) boundary_alerted)
    = effects boundary_alerted /\
  effects (run (tell tmp_only 120001 (in_error "RangeError")) boundary_alerted)
    = effects boundary_alerted ++
      [ Sendmail None "" "ALERT: RangeError has reached its minute threshold.";
        WriteState "/tmp/_state"
          [ ("_all", (None, None, None)); ("_default", (None, None, None));
            ("RangeError", (Some 120001, None, None)) ];
        Act "RangeError" Minute ].
Proof.
  split; [|split; [|split]].
  - intros [H _]. specialize (H eq_refl). lia.
  - vm_compute. reflexivity.
  - vm_compute. reflexivity.
  - vm_compute. reflexivity.
Qed.

(** C3 (amended): for an enabled window with a cooldown and a recorded,
    non-zero last alert, the threshold check at [t] is skipped if and only if
    [t - last_alert <= cooldown] (minutes turned into milliseconds): the
    boundary itself is still suppressed, and the window is evaluated again,
    firing exactly when the count reaches the threshold, once
    [t - last_alert > cooldown].  (The body of the reached threshold ends as
    the write of the state file does.) *)
Theorem cooldown_skip_inclusive (fs : file_system) (e : string) (t : Z)
    (k : window_key) (a : alerter) (s : settings) (last minutes : Z) :
  _settings a !! e = Some s ->
  enabled (get_timespan k s) = true ->
  last_alert (get_timespan k s) = Some last -> last <> 0 ->
  cooldown (get_timespan k s) = Some minutes ->
  (cooling_down (get_timespan k s) t = true <-> t - last <= minutes * 60000) /\
  (t - last <= minutes * 60000 -> check_window fs e t k a = (Return tt, a)) /\
  (minutes * 60000 < t - last ->
     exists range,
       _find_range e (Range (num (t - window k)) undefined) a = Some range /\
       check_window fs e t k a =
         if reaches (error_count range) (threshold (get_timespan k s))
         then (save_outcome fs e t k s a, alerted fs e t k s a)
         else (Return tt, a)).
Proof.
  intros Hs Hen Hlast Hnz Hcd.
  assert (Hguard : cooling_down (get_timespan k s) t = (t - minutes * 60000 <=? last)).
  { unfold cooling_down. rewrite Hlast, Hcd. simpl.
    destruct (Z.eqb_spec last 0); [contradiction | reflexivity]. }
  destruct (check_window_spec fs e t k a s Hs) as (range & Hr & Hrun).
  rewrite Hen, Hguard in Hrun. rewrite Hguard.
  rewrite (proj1 (fire_spec fs e t k s a)) in Hrun.
  split; [rewrite Z.leb_le; lia|]. split.
  - intros Hin. rewrite Hrun.
    destruct (Z.leb_spec (t - minutes * 60000) last); [reflexivity | lia].
  - intros Hout. exists range. split; [assumption|]. rewrite Hrun.
    destruct (Z.leb_spec (t - minutes * 60000) last); [lia | reflexivity].
Qed.

Lemma cooldown_skip_inclusive_witness :
  _settings boundary_alerted !! "RangeError"
    = Some (set_timespan Minute (Timespan true (Some 1) (Some 1) (Some 60000))
              _blank_settings) /\
  (cooling_down (Timespan true (Some 1) (Some 1) (Some 60000)) 120000 = true
   <-> 120000 - 60000 <= 1 * 60000).
Proof.
  split; [vm_compute; reflexivity|].
  refine (proj1 (cooldown_skip_inclusive tmp_only "RangeError" 120000 Minute
                   boundary_alerted
                   (set_timespan Minute (Timespan true (Some 1) (Some 1) (Some 60000))
                      _blank_settings)
                   60000 1 _ _ _ _ _)).
  - vm_compute. reflexivity.
  - reflexivity.
  - reflexivity.
  - lia.
  - reflexivity.
Defined.

(** A turn of the loop raises no alert for a window whose threshold is
    [undefined], and leaves that window as it is. *)
Lemma check_window_quiet (fs : file_system) (e : string) (t : Z) (k w : window_key)
    (a : alerter) (s : settings) :
  _settings a !! e = Some s ->
  threshold (get_timespan w s) = None ->
  exists s' es,
    _settings (check_window fs e t k a).2 !! e = Some s' /\
    get_timespan w s' = get_timespan w s /\
    effects (check_window fs e t k a).2 = effects a ++ es /\
    (Act e w ∉ es) /\
    (forall f to, Sendmail f to (alert_subject e (window_name w)) ∉ es).
Proof.
  intros Hs Hth. destruct (check_window_spec fs e t k a s Hs) as (range & _ & ->).
  destruct (enabled (get_timespan k s)
            && negb (cooling_down (get_timespan k s) t)
            && reaches (error_count range) (threshold (get_timespan k s))) eqn:Hfire.
  - assert (Hkw : k <> w).
    { intros ->. rewrite Hth, reaches_undefined, andb_false_r in Hfire. discriminate. }
    destruct (fire_spec fs e t k s a) as (-> & Hst & _ & _ & _ & Heff).
    eexists _, _. simpl.
    split; [rewrite Hst; apply lookup_insert_eq|].
    split; [apply get_set_timespan_ne; assumption|].
    split; [exact Heff|].
    assert (Hact : forall x, x ∈ match save_outcome fs e t k s a with
                                 | Return _ => [Act e k] | _ => [] end -> x = Act e k).
    { intros x Hx. destruct (save_outcome fs e t k s a);
        [apply list_elem_of_singleton in Hx; assumption | | ];
        apply elem_of_nil in Hx; contradiction. }
    split.
    + intros Hin. repeat (apply elem_of_cons in Hin as [Hin|Hin]; [congruence|]).
      apply Hact in Hin. congruence.
    + intros f to Hin. apply elem_of_cons in Hin as [Hin|Hin].
      { assert (Hsub : alert_subject e (window_name k) = alert_subject e (window_name w))
          by congruence.
        apply alert_subject_window in Hsub. congruence. }
      repeat (apply elem_of_cons in Hin as [Hin|Hin]; [congruence|]).
      apply Hact in Hin. congruence.
  - exists s, []. simpl. split; [assumption|].
    split; [reflexivity|]. split; [symmetry; apply app_nil_r|].
    split; [apply not_elem_of_nil | intros; apply not_elem_of_nil].
Qed.

(** C10: a window whose threshold was never set (left [undefined]) never
    raises an alert, whatever the history holds: its turn of the loop leaves
    the alerter as it is, and a whole [_check], however the other windows
    make it end, neither mails nor acts for that window nor touches its last
    alert. *)
Theorem unset_threshold_never_alerts (fs : file_system) (e : string) (t : Z)
    (w : window_key) (a : alerter) (s : settings) :
  _settings a !! e = Some s ->
  threshold (get_timespan w s) = None ->
  check_window fs e t w a = (Return tt, a) /\
  exists o a' s' es, _check fs e t a = (o, a') /\
    returns_or_save_fails fs a o /\
    (saves fs a -> o = Return tt) /\
    _settings a' !! e = Some s' /\ get_timespan w s' = get_timespan w s /\
    effects a' = effects a ++ es /\
    (Act e w ∉ es) /\
    (forall f to, Sendmail f to (alert_subject e (window_name w)) ∉ es).
Proof.
  intros Hs Hth. split.
  - destruct (check_window_spec fs e t w a s Hs) as (range & _ & ->).
    rewrite Hth, reaches_undefined, andb_false_r. reflexivity.
  - destruct (check_frame fs e t a) as (o & a' & Hrun & Ho & Hsv & _); [eauto|].
    pose proof (check_sequence fs e t
      (fun x _ x' => forall sx, _settings x !! e = Some sx ->
         threshold (get_timespan w sx) = None ->
         exists s' es, _settings x' !! e = Some s' /\
           get_timespan w s' = get_timespan w sx /\
           effects x' = effects x ++ es /\
           (Act e w ∉ es) /\
           (forall f to, Sendmail f to (alert_subject e (window_name w)) ∉ es))) as H.
    simpl in H. destruct (H) with (a := a) (sx := s) as (s' & es & Hq); [| | |eauto|assumption|assumption|].
    + intros x sx Hsx _. exists sx, []. split; [assumption|]. split; [reflexivity|].
      split; [symmetry; apply app_nil_r|].
      split; [apply not_elem_of_nil | intros; apply not_elem_of_nil].
    + intros x y _ z Hxy Hyz sx Hsx Hthx.
      destruct (Hxy sx Hsx Hthx) as (sy & es1 & Hsy & Hwy & Hey & Hay & Hmy).
      destruct (Hyz sy Hsy ltac:(congruence)) as (sz & es2 & Hsz & Hwz & Hez & Haz & Hmz).
      exists sz, (es1 ++ es2). split; [assumption|]. split; [congruence|].
      split; [rewrite Hez, Hey, <- app_assoc; reflexivity|].
      split.
      * rewrite elem_of_app. tauto.
      * intros f to. rewrite elem_of_app. specialize (Hmy f to). specialize (Hmz f to). tauto.
    + intros k x _ sx Hsx Hthx. apply check_window_quiet; assumption.
    + rewrite Hrun in Hq. simpl in Hq. exists o, a', s', es. auto 10.
Qed.

Lemma unset_threshold_never_alerts_witness :
  check_window tmp_only ALL 1004 Minute unset_threshold_alerter
  = (Return tt, unset_threshold_alerter).
Proof.
  refine (proj1 (unset_threshold_never_alerts tmp_only ALL 1004 Minute
                   unset_threshold_alerter
                   (set_timespan Minute (edit_on blank_timespan) _blank_settings) _ _)).
  - vm_compute. reflexivity.
  - reflexivity.
Defined.

(** ** Claims on the range index *)

(** C4: the claim's empty-sequence case fails on the code.  With no
    timestamps every comparison reads [undefined] and is false, the midpoint
    is -1, and the body ends without a [return]: the search for any number
    yields [undefined], not 0, whatever the fuel.  (For non-empty
    non-decreasing sequences the rest of the claim holds:
    [find_bound_lower_bound].) *)
Theorem find_bound_empty_undefined (T : Z) (fuel : nat) :
  _find_bound (S fuel) (num T) [] None None = Some undefined /\
  find_bound (num T) [] = Some undefined /\
  find_bound (num T) [] <> Some (num 0).
Proof.
  assert (H : forall f, _find_bound (S f) (num T) [] None None = Some undefined)
    by (intros f; reflexivity).
  split; [apply H|]. unfold find_bound, bound_fuel. simpl length.
  rewrite H. split; [reflexivity | discriminate].
Qed.

(** Whatever upper bound a query carries, [_find_range] never reads it. *)
Lemma find_range_to_unread (k : string) (f t1 t2 : value) (a : alerter) :
  truthy t1 = truthy t2 ->
  _find_range k (Range f t1) a = _find_range k (Range f t2) a.
Proof. unfold _find_range. simpl. intros ->. reflexivity. Qed.

(** Without an upper bound the range ends at the end of the history. *)
Lemma find_range_open (k : string) (f : value) (a : alerter) (r : bounds) :
  _find_range k (Range f undefined) a = Some r -> to r = num (len (history k a) - 1).
Proof.
  unfold _find_range, history. simpl.
  destruct (if truthy f then _ else _); simpl; [|discriminate].
  intros [= <-]. reflexivity.
Qed.

(** C5: the upper index is not computed from the upper bound.  On the
    history 10, 20, 30 the query from 10 to 30 gets the upper index 0, the
    lower bound of the query's [from], where the lower bound of its [to] is
    2; the same query up to 20 gets the same answer. *)
Theorem find_range_upper_bound_from_lower :
  let a := with_timestamps <[ "db_error" := [10; 20; 30] ]> new_alerter in
  _find_range "db_error" (Range (num 10) (num 30)) a = Some (Range (num 0) (num 0)) /\
  find_bound (num 30) (history "db_error" a) = Some (num 2) /\
  _find_range "db_error" (Range (num 10) (num 20)) a = Some (Range (num 0) (num 0)).
Proof. vm_compute. auto. Qed.

(** ** Claims on the persistence layer *)

Example join_lines_two :
  join_lines [1000; 2000] = "1000" +:+ String newline ("2000" +:+ String newline "").
Proof. reflexivity. Qed.

(** C9: a write attempt for a configured error type.  Without a log path it
    reports success and changes nothing; with the stream draining or not yet
    open it reports failure and changes nothing; otherwise the entries go to
    the stream newline-joined, the draining flag is set exactly when the
    stream's buffer has filled, and the attempt reports success. *)
Theorem write_attempt (error_type : string) (data : list Z) (a : alerter) (s : settings) :
  _settings a !! error_type = Some s ->
  (truthy_str (log s) = false -> _write error_type data a = (Return true, a)) /\
  (truthy_str (log s) = true -> draining s = true \/ stream s = None ->
     _write error_type data a = (Return false, a)) /\
  (forall st, truthy_str (log s) = true -> draining s = false -> stream s = Some st ->
     let pending := ws_pending st + Z.of_nat (String.length (join_lines data)) in
     let written :=
       WStream (ws_path st) (ws_chunks st ++ [join_lines data]) pending
         (ws_high_water_mark st) in
     let full := ws_high_water_mark st <=? pending in
     _write error_type data a =
       (Return true,
        with_settings <[ error_type := set_stream (Some written) full s ]> a)).
Proof.
  intros Hs. unfold _write, bind. rewrite (settings_of_Some _ _ _ Hs).
  split; [|split].
  - intros ->. reflexivity.
  - intros -> [Hd|Hst]; simpl.
    + rewrite Hd. reflexivity.
    + rewrite Hst. destruct (draining s); reflexivity.
  - intros st -> Hd Hst. simpl. rewrite Hd, Hst. unfold stream_write, modify, ret. simpl.
    rewrite Z.leb_antisym. destruct (_ <? _); reflexivity.
Qed.

Lemma write_attempt_witness :
  _write ALL [1000; 2000; 3000] logging_alerter =
    (Return true,
     with_settings
       <[ ALL := set_stream
                   (Some (WStream "/tmp/x" [join_lines [1000; 2000; 3000]] 15 16384))
                   false
                   (set_log (Some "/tmp/x") _blank_settings) ]>
       logging_alerter).
Proof.
  refine (proj2 (proj2 (write_attempt ALL [1000; 2000; 3000] logging_alerter
    (set_stream (Some (createWriteStream "/tmp/x")) false
       (set_log (Some "/tmp/x") _blank_settings)) _))
    (createWriteStream "/tmp/x") _ _ _).
  - vm_compute. reflexivity.
  - reflexivity.
  - reflexivity.
  - reflexivity.
Defined.

(** C6: the flush either moves the whole queue of an error type behind its
    saved timestamps and empties the queue (the write attempt reported
    success) or leaves both as they were (it reported failure); the history,
    saved then queued, of every error type is the same list before and
    after, so every range query answers the same. *)
Theorem flush_queued_transparent (a : alerter) :
  queued_configured a ->
  exists a', _flush_queued a = (Return tt, a') /\
    (forall k q, _queued a !! k = Some q ->
       ((_write k q a).1 = Return true /\
        _timestamps a' !! k = Some (default [] (_timestamps a !! k) ++ q) /\
        _queued a' !! k = None)
       \/
       ((_write k q a).1 = Return false /\
        _timestamps a' !! k = _timestamps a !! k /\
        _queued a' !! k = Some q)) /\
    (forall k, history k a' = history k a) /\
    (forall k range, _find_range k range a' = _find_range k range a) /\
    (forall k range, error_count <$> _find_range k range a'
                     = error_count <$> _find_range k range a).
Proof.
  intros Hcfg.
  destruct (flush_queued_spec a Hcfg) as (a' & Hrun & _ & Hhist & _ & Hin).
  exists a'. split; [assumption|]. split; [|split; [assumption|]].
  - intros k q Hq. destruct (Hin k) as (s & s' & Hs & Hfl & _); [eauto|].
    rewrite (write_verdict _ _ _ _ Hs). unfold flushed, history in Hfl.
    rewrite Hq in Hfl. simpl in Hfl.
    destruct (accepts s); [left | right]; (split; [reflexivity | assumption]).
  - assert (Hfr : forall k range, _find_range k range a' = _find_range k range a)
      by (intros; apply find_range_history, Hhist).
    split; [assumption|]. intros k range. rewrite Hfr. reflexivity.
Qed.

Lemma flush_queued_transparent_witness :
  queued_configured logging_alerter /\
  exists a', _flush_queued logging_alerter = (Return tt, a') /\
    history ALL a' = history ALL logging_alerter.
Proof.
  assert (H : queued_configured logging_alerter)
    by (apply queued_configured_dec; vm_compute; reflexivity).
  split; [exact H|].
  destruct (flush_queued_transparent logging_alerter H) as (a' & Hrun & _ & Hhist & _).
  exists a'. split; [exact Hrun | apply Hhist].
Defined.

(** ** Claims on ingestion *)

(** [_tell] under a configured key returns, unless an alert it raises cannot
    be saved; either way it configures nothing new, drops no settings, and
    keeps every queued key configured. *)
Lemma tell_key_frame (fs : file_system) (key : string) (t : Z) (a : alerter) :
  queued_configured a -> is_Some (_settings a !! key) ->
  exists o a', _tell fs key t a = (o, a') /\
    returns_or_save_fails fs a o /\
    (saves fs a -> o = Return tt) /\
    (forall c, _settings a !! c = None -> _settings a' !! c = None) /\
    (forall c, is_Some (_settings a !! c) -> is_Some (_settings a' !! c)) /\
    queued_configured a' /\
    _root a' = _root a.
Proof.
  intros Hcfg Hkey. unfold _tell, bind, modify.
  set (a0 := with_queued _ a).
  assert (Hq0 : forall k, is_Some (_queued a0 !! k) -> k = key \/ is_Some (_queued a !! k)).
  { intros k Hk. destruct (decide (k = key)) as [|Hne]; [auto|]. right.
    subst a0. simpl in Hk. destruct (_queued a !! key);
      rewrite lookup_insert_ne in Hk by congruence; assumption. }
  assert (Hcfg0 : queued_configured a0).
  { intros k Hk. destruct (Hq0 k Hk) as [->|Hk']; [assumption | apply Hcfg; assumption]. }
  destruct (flush_queued_spec a0 Hcfg0) as (a1 & -> & Hshell & _ & Hnone & Hsome).
  assert (Hroot1 : _root a1 = _root a).
  { unfold shell in Hshell. change (_root a) with (_root a0). congruence. }
  assert (Hdom : forall c, (_settings a !! c = None -> _settings a1 !! c = None) /\
                           (is_Some (_settings a !! c) -> is_Some (_settings a1 !! c))).
  { intros c. destruct (_queued a0 !! c) as [q|] eqn:Hq.
    - destruct (Hsome c) as (s & s' & Hs & _ & Hs' & _); [eauto|].
      change (_settings a0) with (_settings a) in Hs. rewrite Hs, Hs'.
      split; [discriminate | eauto].
    - destruct (Hnone c Hq) as (_ & _ & ->). auto. }
  destruct (check_frame fs key t a1) as (o & a2 & -> & Ho & Hsv & Hk2 & Ho2 & Ht2 & Hq2 & Hr2).
  { apply Hdom. assumption. }
  assert (Hdom2 : forall c, (_settings a !! c = None -> _settings a2 !! c = None) /\
                            (is_Some (_settings a !! c) -> is_Some (_settings a2 !! c))).
  { intros c. destruct (decide (c = key)) as [->|Hne].
    - split; [|auto]. intros Hn. rewrite Hn in Hkey. destruct Hkey as [? ?]. discriminate.
    - rewrite (Ho2 c Hne). apply Hdom. }
  exists o, a2. split; [destruct o as [[]| |]; reflexivity|].
  split; [eapply returns_or_save_fails_root; eassumption|].
  split; [intros Hsaves; apply Hsv; eapply saves_root; eassumption|].
  split; [intros c; apply Hdom2|]. split; [intros c; apply Hdom2|].
  split; [|congruence].
  intros k Hk. rewrite Hq2 in Hk. apply Hdom2.
  destruct (_queued a0 !! k) as [q|] eqn:Hq.
  - apply Hcfg0. change (_settings a0) with (_settings a). rewrite Hq. eauto.
  - destruct (Hnone k Hq) as (_ & Hn & _). rewrite Hn in Hk.
    destruct Hk as [? ?]. discriminate.
Qed.

(** Whatever is not an error object is a silent no-op of [tell]. *)
Lemma tell_ignores_non_errors (fs : file_system) (t : Z) (error : input) (a : alerter) :
  instanceof_Error error = false -> tell fs t error a = (Return tt, a).
Proof.
  intros H. unfold tell. rewrite H, orb_true_r. reflexivity.
Qed.

(** An error object is told under [_all], when watched, and then under the
    name of its constructor. *)
Lemma tell_error (fs : file_system) (t : Z) (c : string) (a : alerter) :
  tell fs t (in_error c) a =
    (let! all := settings_of ALL in
     (if watch all then _tell fs ALL t else ret tt) ;;
     let! error_settings := settings_of c in
     if watch error_settings then _tell fs c t else ret tt) a.
Proof. reflexivity. Qed.

(** The occurrence is in the history before anything can throw. *)
Lemma tell_key_pushes (fs : file_system) (key : string) (t : Z) (a : alerter) :
  queued_configured a -> is_Some (_settings a !! key) ->
  history key (_tell fs key t a).2 = history key a ++ [t] /\
  (forall k, k <> key -> history k (_tell fs key t a).2 = history k a).
Proof.
  intros Hcfg Hkey. unfold _tell, bind, modify.
  set (a0 := with_queued _ a).
  assert (Hh0 : history key a0 = history key a ++ [t] /\
                forall k, k <> key -> history k a0 = history k a).
  { subst a0. unfold history. simpl. split.
    - destruct (_queued a !! key) as [q|] eqn:Hq; rewrite lookup_insert_eq; simpl;
        [rewrite app_assoc; reflexivity | rewrite app_nil_r; reflexivity].
    - intros k Hk. destruct (_queued a !! key); rewrite lookup_insert_ne by congruence;
        reflexivity. }
  assert (Hcfg0 : queued_configured a0).
  { intros k Hk. destruct (decide (k = key)) as [->|Hne]; [assumption|].
    apply Hcfg. subst a0. simpl in Hk.
    destruct (_queued a !! key); rewrite lookup_insert_ne in Hk by congruence; assumption. }
  destruct (flush_queued_spec a0 Hcfg0) as (a1 & -> & _ & Hhist & Hnone & Hsome).
  assert (Hk1 : is_Some (_settings a1 !! key)).
  { destruct (_queued a0 !! key) as [q|] eqn:Hq.
    - destruct (Hsome key) as (s & s' & _ & _ & -> & _); eauto.
    - destruct (Hnone key Hq) as (_ & _ & ->). assumption. }
  destruct (check_frame fs key t a1 Hk1) as (o & a2 & -> & _ & _ & _ & _ & Ht2 & Hq2 & _).
  assert (Hh2 : forall k, history k a2 = history k a0).
  { intros k. rewrite <- Hhist. apply history_eq; congruence. }
  destruct Hh0 as [Hown Hother].
  destruct o as [[]| |]; simpl; rewrite Hh2;
    (split; [exact Hown | intros k Hk; rewrite Hh2; apply Hother, Hk]).
Qed.

(** C1: the claim's string case fails on the code.  [tell] returns at its
    guard for everything that is not an error object, a string included: no
    occurrence is recorded under the string, whatever the configuration.
    After [one("MongoError").minute().on().threshold(1)] the call
    [tell("MongoError")] changes nothing, where the same name carried by an
    error object is recorded (and alerts). *)
Theorem tell_drops_strings (fs : file_system) (t : Z) (s : string) (a : alerter) :
  tell fs t (in_string s) a = (Return tt, a) /\
  _key (in_string s) = s /\
  let configured :=
    run (_edit_timespan (in_string "MongoError") Minute
           (fun c => edit_threshold 1 (edit_on c))) new_alerter in
  history "MongoError" (run (tell fs 1000 (in_string "MongoError")) configured) = [] /\
  history "MongoError" (run (tell fs 1000 (in_error "MongoError")) configured) = [1000].
Proof.
  split; [apply tell_ignores_non_errors; reflexivity|].
  split; [reflexivity|]. intros configured. split; [reflexivity|].
  assert (Hcfg : queued_configured configured)
    by (apply queued_configured_dec; vm_compute; reflexivity).
  assert (Hall : _tell fs ALL 1000 configured
                 = (Return tt, with_timestamps <[ ALL := [1000] ]>
                                 (with_queued (delete ALL) configured))).
  { vm_compute. reflexivity. }
  unfold run. rewrite tell_error. unfold bind.
  rewrite (settings_of_Some ALL configured _blank_settings) by (vm_compute; reflexivity).
  change (watch _blank_settings) with true. cbv iota. rewrite Hall.
  set (a1 := with_timestamps _ _).
  assert (Hcfg1 : queued_configured a1)
    by (apply queued_configured_dec; vm_compute; reflexivity).
  rewrite (settings_of_Some "MongoError" a1
             (set_timespan Minute (edit_threshold 1 (edit_on blank_timespan))
                _blank_settings)) by (vm_compute; reflexivity).
  change (watch (set_timespan Minute _ _blank_settings)) with true. cbv iota.
  destruct (tell_key_pushes fs "MongoError" 1000 a1 Hcfg1 ltac:(vm_compute; eauto))
    as [Hown _].
  rewrite Hown. reflexivity.
Qed.

(** C2: the claim fails on the code.  An error object whose constructor name
    has no settings makes [tell] throw: a TypeError at the read of [watch],
    after the occurrence was told under [_all] (or, when that raised an
    alert whose state file the host refused, the error of that write); no
    settings are created for the name. *)
Theorem tell_unconfigured_throws (fs : file_system) (t : Z) (c : string) (a : alerter) :
  queued_configured a ->
  is_Some (_settings a !! ALL) ->
  _settings a !! c = None ->
  exists err a', tell fs t (in_error c) a = (Throw err, a') /\
    _settings a' !! c = None /\
    (err = TypeError \/
     exists code state, err = IOError code /\ fs (state_path a) state = Some code) /\
    (saves fs a -> err = TypeError).
Proof.
  intros Hcfg [all Hall] Hc. rewrite tell_error. unfold bind.
  rewrite (settings_of_Some _ _ _ Hall).
  destruct (watch all).
  - destruct (tell_key_frame fs ALL t a Hcfg) as
      (o & a1 & -> & Ho & Hsv & Hnone & _); [eauto|].
    destruct Ho as [->|(code & st & -> & Hfs)].
    + exists TypeError, a1. rewrite (settings_of_None _ _ (Hnone c Hc)). auto.
    + exists (IOError code), a1. split; [reflexivity|]. split; [auto|].
      split; [right; eauto|]. intros Hsaves. specialize (Hsv Hsaves). discriminate.
  - unfold ret. exists TypeError, a. rewrite (settings_of_None _ _ Hc). auto.
Qed.

Lemma tell_unconfigured_throws_witness :
  queued_configured new_alerter /\
  is_Some (_settings new_alerter !! ALL) /\
  _settings new_alerter !! "RangeError" = None /\
  exists err a', tell tmp_only 1000 (in_error "RangeError") new_alerter = (Throw err, a') /\
    _settings a' !! "RangeError" = None.
Proof.
  assert (H1 : queued_configured new_alerter)
    by (apply queued_configured_dec; vm_compute; reflexivity).
  assert (H2 : is_Some (_settings new_alerter !! ALL)) by (vm_compute; eauto).
  assert (H3 : _settings new_alerter !! "RangeError" = None) by (vm_compute; reflexivity).
  split; [exact H1|]. split; [exact H2|]. split; [exact H3|].
  destruct (tell_unconfigured_throws tmp_only 1000 "RangeError" new_alerter H1 H2 H3)
    as (err & a' & Hrun & Hnone & _).
  exists err, a'. split; [exact Hrun | exact Hnone].
Defined.

(** ** Claims on start-up *)

(** The first call of [start] marks the alerter started and takes the
    retention cutoff the host computed. *)
Lemma start_first (one_day_ago : Z) (a : alerter) :
  _started a = false ->
  start one_day_ago a =
    (Return (Recovery (Z.of_nat (length (start_targets a))) false
               (Z.of_nat (length (start_targets a))) false false false
               one_day_ago,
             start_targets a),
     with_started true a).
Proof. intros H. unfold start, bind, gets. rewrite H. reflexivity. Qed.

Lemma start_started (one_day_ago : Z) (a : alerter) :
  _started a = true ->
  start one_day_ago a = (Throw (ReferenceError "AlerterErrror"), a).
Proof. intros H. unfold start, bind, gets. rewrite H. reflexivity. Qed.

(** The log files [start] reads: those of the error types that are watched
    and have a truthy log path. *)
Lemma elem_of_start_targets (a : alerter) (k p : string) :
  Target k p ∈ start_targets a <->
  exists s, _settings a !! k = Some s /\ watch s = true /\
            log s = Some p /\ p <> EmptyString.
Proof.
  unfold start_targets. rewrite list_elem_of_omap. split.
  - intros ([k' s] & Hin & Hsome). apply elem_of_map_to_list in Hin.
    destruct (log s) as [path|] eqn:Hlog; [|discriminate].
    destruct (watch s) eqn:Hw; [|discriminate]. simpl in Hsome.
    destruct (String.eqb_spec path ""); [discriminate|].
    simpl in Hsome. injection Hsome as -> ->. exists s. auto.
  - intros (s & Hs & Hw & Hlog & Hp). exists (k, s). split.
    + apply elem_of_map_to_list. assumption.
    + rewrite Hlog, Hw. simpl. destruct (String.eqb_spec p ""); [contradiction|].
      reflexivity.
Qed.

(** C8: the claim's report through the callback fails on the code.  On a
    started alerter [start] throws a ReferenceError, for the misspelt class
    name AlerterErrror, before the callback is called: the callback receives
    nothing, no recovery work is done and the alerter is left as it was. *)
Theorem start_again_throws (one_day_ago : Z) (a : alerter) :
  _started a = true ->
  start one_day_ago a = (Throw (ReferenceError "AlerterErrror"), a) /\
  effects (run (start one_day_ago) a) = effects a.
Proof.
  intros H. unfold run. rewrite (start_started one_day_ago a H). split; reflexivity.
Qed.

Lemma start_again_throws_witness :
  _started (run (start 0) new_alerter) = true /\
  start 1 (run (start 0) new_alerter)
  = (Throw (ReferenceError "AlerterErrror"), run (start 0) new_alerter).
Proof.
  split; [reflexivity|].
  apply (proj1 (start_again_throws 1 (run (start 0) new_alerter) eq_refl)).
Defined.

Lemma elem_of_parse_log (parseInt : string -> option Z) (cutoff : Z) (data : string) (t : Z) :
  t ∈ parse_log parseInt cutoff data <->
  (exists line, line ∈ split_lines data /\ parseInt line = Some t) /\ cutoff <= t.
Proof.
  unfold parse_log. rewrite list_elem_of_omap. split.
  - intros (p & Hp & Hrec). apply list_elem_of_fmap in Hp as (line & -> & Hline).
    unfold recent in Hrec. destruct (parseInt line) as [t'|] eqn:Hparse; [|discriminate].
    destruct (Z.leb_spec cutoff t'); [|discriminate].
    injection Hrec as <-. eauto.
  - intros [(line & Hline & Hparse) Hle]. exists (Some t). split.
    + apply list_elem_of_fmap. eauto.
    + simpl. destruct (Z.leb_spec cutoff t); [reflexivity | lia].
Qed.

(** The read callback on the content of a log: the timestamps at or after
    the cutoff of the closure go to the front of the queue of the error
    type, and the cutoff of the closure stays what it was. *)
Lemma read_callback_spec (parseInt : string -> option Z)
    (key data : string) (r : recovery) (a : alerter) (s : settings) (path : string) :
  read_error r = false -> open_error r = false -> state_error r = false ->
  queued_configured a ->
  _settings a !! key = Some s -> log s = Some path ->
  let fresh := parse_log parseInt (one_day_ago r) data in
  exists r' a', readFile_callback parseInt key (ReadData data) r a = (Return r', a') /\
    one_day_ago r' = one_day_ago r /\
    history key a'
    = default [] (_timestamps a !! key) ++ fresh ++ default [] (_queued a !! key) /\
    (joins r = false ->
       _queued a' !! key = Some (fresh ++ default [] (_queued a !! key)) /\
       _timestamps a' !! key = _timestamps a !! key).
Proof.
  intros Hre Hoe Hse Hcfg Hs Hlog fresh.
  unfold readFile_callback. rewrite Hre, Hoe, Hse. simpl.
  unfold load_log, bind. rewrite (settings_of_Some _ _ _ Hs), Hlog. unfold modify.
  fold fresh. unfold finish_if_joined. simpl.
  change ((reads_left r - 1 =? 0) && (opens_left r - 1 =? 0) && state_loaded r)
    with (joins r).
  set (a2 := with_queued _ (with_settings _ a)).
  assert (Hts2 : _timestamps a2 = _timestamps a) by reflexivity.
  assert (Hq2 : _queued a2 !! key = Some (fresh ++ default [] (_queued a !! key))).
  { subst a2. simpl. apply lookup_insert_eq. }
  assert (Hh2 : history key a2
                = default [] (_timestamps a !! key) ++ fresh ++ default [] (_queued a !! key)).
  { unfold history. rewrite Hts2, Hq2. reflexivity. }
  destruct (joins r).
  - unfold bind, modify, ret.
    assert (Hcfg2 : queued_configured (with_ready true a2)).
    { intros k Hk. subst a2. simpl in *.
      destruct (decide (k = key)) as [->|Hne].
      - rewrite lookup_insert_eq. eauto.
      - rewrite lookup_insert_ne by congruence.
        rewrite lookup_insert_ne in Hk by congruence. apply Hcfg. assumption. }
    destruct (flush_queued_spec _ Hcfg2) as (a3 & -> & _ & Hhist & _).
    eexists _, _. split; [reflexivity|]. split; [reflexivity|]. split; [|discriminate].
    change (history key (emit (Callback None) a3)) with (history key a3).
    rewrite Hhist. exact Hh2.
  - unfold ret. eexists _, _. split; [reflexivity|]. split; [reflexivity|].
    split; [exact Hh2 | intros _; split; [exact Hq2 | rewrite Hts2; reflexivity]].
Qed.

(** C7, as stated, fails on the code, in two ways.  The cutoff is not the
    start time minus 24 hours but the start time minus one day of the local
    calendar: started at noon of 3 November 2024 in New York, the day the
    clocks went back, an entry of 12:30 the day before is older than the
    start time minus 24 hours and is kept.  And a retained entry can stand
    after a newer entry of the process: an occurrence told while its error
    type had no log path is already behind the queue, in the saved
    timestamps, and the entries read from the log come after it. *)
Lemma recovery_order_counterexample :
  (fall_back_one_day_ago = fall_back_noon - 90000000 /\
   1730565000000 < fall_back_noon - 86400000 /\
   (start fall_back_one_day_ago (run (log_to (in_string ALL) "/tmp/x") new_alerter)).1
   = Return (Recovery 1 false 1 false false false fall_back_one_day_ago,
             [Target ALL "/tmp/x"]) /\
   history ALL
     (run (readFile_callback parse_decimal ALL
             (ReadData ("1730565000000" +:+ String newline ""))
             (Recovery 1 false 1 false false false fall_back_one_day_ago))
        (run (start fall_back_one_day_ago)
           (run (log_to (in_string ALL) "/tmp/x") new_alerter)))
   = [1730565000000]) /\
  (reachable late_logging_alerter /\
   history ALL late_logging_alerter = [99999000] /\
   history ALL
     (run (readFile_callback parse_decimal ALL
             (ReadData ("5000" +:+ String newline ("13600000" +:+ String newline
                        ("99000000" +:+ String newline ""))))
             (Recovery 1 false 1 false false false 13600000))
        late_logging_alerter)
   = [99999000; 13600000; 99000000]).
Proof.
  split.
  - split; [reflexivity|]. split; [reflexivity|]. split; vm_compute; reflexivity.
  - split; [|split; vm_compute; reflexivity].
    unfold late_logging_alerter. repeat constructor.
Qed.

(** C7 (amended): the recovery of the logs.  [start] issues a read for
    exactly the error types that are watched and have a log path, and fixes
    the cutoff: the start time less one day as the host's calendar subtracts
    it.  When the read of such a log completes, of its parsed lines exactly
    the timestamps not older than the cutoff survive (a strictly older one is
    discarded), and they are put in the queue of the error type ahead of
    what was queued since the process started; in the history they stand
    right before those entries, and behind the saved ones, also when the
    callback completes the recovery and flushes. *)
Theorem recovery_keeps_recent_ahead (parseInt : string -> option Z) (cutoff : Z)
    (a0 : alerter) :
  _started a0 = false ->
  exists r0 targets,
    start cutoff a0 = (Return (r0, targets), with_started true a0) /\
    one_day_ago r0 = cutoff /\
    (forall key path, Target key path ∈ targets <->
       exists s, _settings a0 !! key = Some s /\ watch s = true /\
                 log s = Some path /\ path <> EmptyString) /\
    forall key path data r a s path',
      Target key path ∈ targets ->
      one_day_ago r = one_day_ago r0 ->
      read_error r = false -> open_error r = false -> state_error r = false ->
      queued_configured a ->
      _settings a !! key = Some s -> log s = Some path' ->
      let fresh := parse_log parseInt cutoff data in
      (forall t, t ∈ fresh <->
         (exists line, line ∈ split_lines data /\ parseInt line = Some t)
         /\ cutoff <= t) /\
      (forall t, t < cutoff -> t ∉ fresh) /\
      exists r' a',
        readFile_callback parseInt key (ReadData data) r a = (Return r', a') /\
        one_day_ago r' = cutoff /\
        history key a'
        = default [] (_timestamps a !! key) ++ fresh ++ default [] (_queued a !! key) /\
        (joins r = false ->
           _queued a' !! key = Some (fresh ++ default [] (_queued a !! key)) /\
           _timestamps a' !! key = _timestamps a !! key).
Proof.
  intros Hst. rewrite (start_first cutoff a0 Hst). eexists _, _.
  split; [reflexivity|]. split; [reflexivity|].
  split; [intros key path; apply elem_of_start_targets|].
  intros key path data r a s path' _ Hday Hre Hoe Hse Hcfg Hs Hlog fresh.
  simpl in Hday.
  assert (Hfresh : forall t, t ∈ fresh <->
     (exists line, line ∈ split_lines data /\ parseInt line = Some t) /\ cutoff <= t).
  { intros t. unfold fresh. apply elem_of_parse_log. }
  split; [exact Hfresh|]. split.
  { intros t Hlt Hin. apply Hfresh in Hin as [_ Hge]. lia. }
  destruct (read_callback_spec parseInt key data r a s path' Hre Hoe Hse Hcfg Hs Hlog)
    as (r' & a' & Hrun & Hcut & Hhist & Hq).
  rewrite Hday in Hhist, Hq, Hcut. exists r', a'. auto.
Qed.

Lemma recovery_keeps_recent_ahead_witness :
  exists r' a',
    readFile_callback parse_decimal ALL
      (ReadData ("5000" +:+ String newline ("13600000" +:+ String newline
                 ("99000000" +:+ String newline ""))))
      (Recovery 1 false 1 false true false 13600000) recovering_alerter
    = (Return r', a') /\
    history ALL a' = [] ++ [13600000; 99000000] ++ [99999000].
Proof.
  destruct (recovery_keeps_recent_ahead parse_decimal 13600000
              (run (log_to (in_string ALL) "/tmp/x") new_alerter) eq_refl)
    as (r0 & targets & Hstart & Hcut & Htargets & Hread).
  destruct (Hread ALL "/tmp/x"
              ("5000" +:+ String newline ("13600000" +:+ String newline
                 ("99000000" +:+ String newline "")))
              (Recovery 1 false 1 false true false 13600000)
              recovering_alerter
              (set_log (Some "/tmp/x") _blank_settings) "/tmp/x")
    as (_ & _ & r' & a' & Hrun & _ & Hhist & _).
  - apply Htargets. exists (set_log (Some "/tmp/x") _blank_settings).
    split; [vm_compute; reflexivity|]. split; [reflexivity|].
    split; [reflexivity | discriminate].
  - rewrite Hcut. reflexivity.
  - reflexivity.
  - reflexivity.
  - reflexivity.
  - apply queued_configured_dec. vm_compute. reflexivity.
  - vm_compute. reflexivity.
  - reflexivity.
  - exists r', a'. split; [exact Hrun | exact Hhist].
Defined.

(** ** Reachable alerters keep their queued keys configured *)

Lemma new_alerter_queued_configured : queued_configured new_alerter.
Proof. apply queued_configured_dec. vm_compute. reflexivity. Qed.

(** Every call of [tell], whatever it is handed and however it ends, leaves
    the queued keys configured. *)
Lemma tell_keeps_queued_configured (fs : file_system) (t : Z) (error : input)
    (a : alerter) :
  queued_configured a -> queued_configured (run (tell fs t error) a).
Proof.
  intros Hcfg. unfold run.
  destruct (instanceof_Error error) eqn:Herr.
  2:{ rewrite tell_ignores_non_errors by assumption. assumption. }
  destruct error; try discriminate. rewrite tell_error. unfold bind.
  destruct (_settings a !! ALL) as [all|] eqn:Hall.
  2:{ rewrite (settings_of_None _ _ Hall). assumption. }
  rewrite (settings_of_Some _ _ _ Hall).
  assert (Hfirst : exists o a1,
            (if watch all then _tell fs ALL t else ret tt) a = (o, a1) /\
            queued_configured a1).
  { destruct (watch all).
    - destruct (tell_key_frame fs ALL t a Hcfg) as (o & a1 & Hrun & _ & _ & _ & _ & Hcfg1 & _);
        eauto.
    - exists (Return tt), a. split; [reflexivity | assumption]. }
  destruct Hfirst as (o & a1 & -> & Hcfg1).
  destruct o as [[]| |]; [|assumption|assumption].
  destruct (_settings a1 !! constructor_name) as [s|] eqn:Hs.
  2:{ rewrite (settings_of_None _ _ Hs). assumption. }
  rewrite (settings_of_Some _ _ _ Hs).
  destruct (watch s); [|assumption].
  destruct (tell_key_frame fs constructor_name t a1 Hcfg1)
    as (o2 & a2 & -> & _ & _ & _ & _ & Hcfg2 & _); eauto.
Qed.

Lemma queued_configured_mono (a a' : alerter) :
  _queued a' = _queued a ->
  (forall k, is_Some (_settings a !! k) -> is_Some (_settings a' !! k)) ->
  queued_configured a -> queued_configured a'.
Proof. intros Hq Hs Hcfg k Hk. rewrite Hq in Hk. auto. Qed.

Lemma flush_keeps_queued_configured (a : alerter) :
  queued_configured a ->
  exists a', _flush_queued a = (Return tt, a') /\ queued_configured a'.
Proof.
  intros Hcfg.
  destruct (flush_queued_spec a Hcfg) as (a' & Hrun & _ & _ & Hnone & Hsome).
  exists a'. split; [assumption|]. intros k Hk.
  destruct (_queued a !! k) as [q|] eqn:Hq.
  - destruct (Hsome k) as (s & s' & _ & _ & -> & _); eauto.
  - destruct (Hnone k Hq) as (_ & Hn & _). rewrite Hn in Hk.
    destruct Hk as [? ?]. discriminate.
Qed.

Lemma finish_keeps_queued_configured (r : recovery) (a : alerter) :
  queued_configured a -> queued_configured (run (finish_if_joined r) a).
Proof.
  intros Hcfg. unfold run, finish_if_joined.
  destruct (_ && _); [|assumption].
  unfold bind, modify.
  destruct (flush_keeps_queued_configured (with_ready true a)) as (a' & -> & Hcfg');
    assumption.
Qed.

Lemma one_keeps_settings (error : input) (a : alerter) :
  _one error a = (Return (_key error), run (_one error) a) /\
  _queued (run (_one error) a) = _queued a /\
  (forall k, is_Some (_settings a !! k) -> is_Some (_settings (run (_one error) a) !! k)).
Proof.
  unfold run, _one, bind, modify. simpl. repeat split.
  intros k Hk. destruct (_settings a !! _key error) eqn:E; [assumption|].
  apply lookup_insert_is_Some'. auto.
Qed.

(** A setter chained on [one(error)] drops no settings and queues nothing. *)
Lemma one_alter_keeps_queued_configured (error : input) (f : alerter -> string -> settings -> settings)
    (a : alerter) :
  queued_configured a ->
  queued_configured
    (run (let! key := _one error in
          modify (fun a => with_settings (alter (f a key) key) a)) a).
Proof.
  intros Hcfg. destruct (one_keeps_settings error a) as (Hrun & Hq & Hs).
  unfold run, bind. rewrite Hrun. unfold modify. simpl.
  eapply queued_configured_mono; [| |exact Hcfg]; [exact Hq|].
  intros k Hk. simpl. apply lookup_alter_is_Some, Hs, Hk.
Qed.

Lemma load_log_keeps_queued_configured (parseInt : string -> option Z)
    (key data : string) (r : recovery) (a : alerter) :
  queued_configured a ->
  queued_configured (run (load_log parseInt key data r) a).
Proof.
  intros Hcfg. unfold run, load_log, bind.
  destruct (_settings a !! key) as [s|] eqn:Hs.
  2:{ rewrite (settings_of_None _ _ Hs). assumption. }
  rewrite (settings_of_Some _ _ _ Hs).
  destruct (log s); [|assumption].
  unfold modify. apply finish_keeps_queued_configured.
  intros k Hk. simpl in *. destruct (decide (k = key)) as [->|Hne].
  - rewrite lookup_insert_eq. eauto.
  - rewrite lookup_insert_ne by congruence.
    rewrite lookup_insert_ne in Hk by congruence. apply Hcfg. assumption.
Qed.

Lemma restore_keeps_settings (json : list (string * saved_alerts))
    (all : gmap string settings) (k : string) :
  is_Some (all !! k) ->
  is_Some (foldl (fun all '(error_type, saved) => alter (restore_alerts saved) error_type all)
                 all json !! k).
Proof.
  revert all. induction json as [|[error_type saved] json IH]; intros all Hk; [assumption|].
  simpl. apply IH, lookup_alter_is_Some, Hk.
Qed.

(** Every alerter a process can hold keeps its queued keys configured: the
    flush never meets a key without settings. *)
Lemma reachable_queued_configured (a : alerter) :
  reachable a -> queued_configured a.
Proof.
  induction 1 as [ | error k edit a _ IH | error a _ IH | error a _ IH
                 | error path a _ IH | error a _ IH | cutoff a _ IH | fs t error a _ IH
                 | parseInt key result r a _ IH | result r a _ IH | key a _ IH
                 | path a _ IH | email a _ IH | contacts a _ IH ].
  - apply new_alerter_queued_configured.
  - apply (one_alter_keeps_queued_configured error
             (fun _ _ s => set_timespan k (edit (get_timespan k s)) s)), IH.
  - apply (one_alter_keeps_queued_configured error (fun _ _ => set_watch false)), IH.
  - apply (one_alter_keeps_queued_configured error (fun _ _ => set_watch true)), IH.
  - apply (one_alter_keeps_queued_configured error (fun _ _ => set_log (Some path))), IH.
  - apply (one_alter_keeps_queued_configured error
             (fun a key => set_log (Some (default "undefined" (_root a) +:+ "/" +:+ key +:+ ".log")))),
      IH.
  - unfold run, start, bind, gets. destruct (_started a); exact IH.
  - apply tell_keeps_queued_configured, IH.
  - unfold run, readFile_callback.
    destruct (_ || _); [exact IH|].
    destruct result as [data|code].
    + apply load_log_keeps_queued_configured, IH.
    + destruct (negb _); [exact IH|]. apply load_log_keeps_queued_configured, IH.
  - unfold run, read_state_callback.
    destruct (_ || _); [exact IH|].
    assert (Hrestore : forall json, queued_configured (run (restore_state json r) a)).
    { intros json. unfold run, restore_state, bind, modify.
      apply finish_keeps_queued_configured.
      eapply queued_configured_mono; [| |exact IH]; [reflexivity|].
      intros k Hk. apply restore_keeps_settings, Hk. }
    destruct result as [json|code]; [apply Hrestore|].
    destruct (negb _); [exact IH | apply Hrestore].
  - unfold run, _set_draining, bind.
    destruct (_settings a !! key) as [s|] eqn:Hs.
    2:{ rewrite (settings_of_None _ _ Hs). exact IH. }
    rewrite (settings_of_Some _ _ _ Hs). unfold modify.
    eapply queued_configured_mono; [| |exact IH]; [reflexivity|].
    intros k Hk. simpl. apply lookup_insert_is_Some'. auto.
  - exact IH.
  - exact IH.
  - exact IH.
Qed.

(** ** A run of the evaluator *)

(** [root("/tmp")] and
    [one("db_error").minute().on().threshold(2).cooldown(60)], then two
    occurrences ten seconds apart and a third two seconds later: the second
    raises the one alert, for the minute window; the third raises none. *)
Example scenario_db_error :
  let configured :=
    run (_edit_timespan (in_string "db_error") Minute
           (fun c => edit_cooldown 60 (edit_threshold 2 (edit_on c))))
        (run (root "/tmp") new_alerter) in
  let first := run (tell tmp_only 1000000 (in_error "db_error")) configured in
  let second := run (tell tmp_only 1010000 (in_error "db_error")) first in
  let third := run (tell tmp_only 1012000 (in_error "db_error")) second in
  effects first = [] /\
  effects second =
    [ Sendmail None "" "ALERT: db_error has reached its minute threshold.";
      WriteState "/tmp/_state"
        [ ("_all", (None, None, None)); ("_default", (None, None, None));
          ("db_error", (Some 1010000, None, None)) ];
      Act "db_error" Minute ] /\
  effects third = effects second /\
  history "db_error" third = [1000000; 1010000; 1012000].
Proof. vm_compute. auto. Qed.

(** The same without a root, on a host that has no directory named
    undefined: the second occurrence is recorded and mailed, the write of
    the state file throws, [tell] throws with it and [act] is not called. *)
Example scenario_db_error_rootless :
  let configured :=
    run (_edit_timespan (in_string "db_error") Minute
           (fun c => edit_cooldown 60 (edit_threshold 2 (edit_on c)))) new_alerter in
  let first := run (tell tmp_only 1000000 (in_error "db_error")) configured in
  (tell tmp_only 1010000 (in_error "db_error") first).1 = Throw (IOError "ENOENT") /\
  effects (run (tell tmp_only 1010000 (in_error "db_error")) first) =
    [ Sendmail None "" "ALERT: db_error has reached its minute threshold.";
      WriteState "undefined/_state"
        [ ("_all", (None, None, None)); ("_default", (None, None, None));
          ("db_error", (Some 1010000, None, None)) ] ] /\
  history "db_error" (run (tell tmp_only 1010000 (in_error "db_error")) first)
  = [1000000; 1010000].
Proof. vm_compute. auto. Qed.

(** * Further properties of the code *)

(** ** Range index *)

Lemma find_bound_lower_bound_witness :
  [10; 20; 20; 30] <> [] /\ StronglySorted Z.le [10; 20; 20; 30] /\
  exists i, find_bound (num 20) [10; 20; 20; 30] = Some (num i) /\
            lower_bound 20 [10; 20; 20; 30] i.
Proof.
  assert (H1 : [10; 20; 20; 30] <> []) by discriminate.
  assert (H2 : StronglySorted Z.le [10; 20; 20; 30]) by (repeat constructor; lia).
  split; [exact H1|]. split; [exact H2|].
  exact (find_bound_lower_bound 20 [10; 20; 20; 30] H1 H2).
Defined.

Lemma find_bound_interval_index (fuel : nat) (t : Z) (ts : list Z) (left right : Z) v :
  0 <= left <= right -> right <= len ts - 1 ->
  _find_bound fuel (num t) ts (Some left) (Some right) = Some v ->
  exists i, v = num i /\ 0 <= i <= len ts.
Proof.
  revert left right. induction fuel as [|fuel IH]; intros left right Hlr Hr; [discriminate|].
  rewrite find_bound_step. cbv zeta.
  destruct (js_le (num t) (at_index ts 0)).
  { intros [= <-]. exists 0. split; [reflexivity | lia]. }
  destruct (js_gt (num t) (at_index ts (len ts - 1))).
  { intros [= <-]. exists (len ts). split; [reflexivity | lia]. }
  destruct (Z.eqb_spec left right) as [->|Hne].
  { intros [= <-]. exists right. split; [reflexivity | lia]. }
  assert (Hmid : left <= (right - left) / 2 + left < right).
  { assert (0 <= (right - left) / 2 < right - left); [|lia].
    split; [apply Z.div_pos; lia | apply Z.div_lt_upper_bound; lia]. }
  set (middle := (right - left) / 2 + left) in *.
  destruct (at_index_in_range ts middle) as [xm Hxm]; [lia|].
  rewrite Hxm.
  destruct (js_seq (num xm) (num t)) eqn:Ehit.
  { destruct (scan_duplicates fuel (num t) ts middle) as [i|] eqn:Escan; [|discriminate].
    intros [= <-]. exists i. split; [reflexivity|].
    pose proof (scan_duplicates_nonneg _ _ _ _ _ Escan ltac:(lia)).
    apply scan_duplicates_spec in Escan as (Hle & _). lia. }
  destruct (js_gt (num t) (num xm)) eqn:Egt; [apply IH; lia|].
  destruct (js_lt (num t) (num xm)) eqn:Elt; [apply IH; lia|].
  unfold js_seq in Ehit. unfold js_gt, js_lt in Egt, Elt.
  apply Z.eqb_neq in Ehit. apply Z.ltb_ge in Egt, Elt. lia.
Qed.

(** X2: the search for a number in a non-empty history, sorted or not, ends and
    answers an index between 0 and the length: it never falls off the end,
    and never leaves the array by more than one place. *)
Theorem find_bound_index_in_range (t : Z) (ts : list Z) :
  ts <> [] ->
  exists i, find_bound (num t) ts = Some (num i) /\ 0 <= i <= len ts.
Proof.
  intros Hne. destruct (find_bound_num_returns t ts) as [v Hv].
  assert (Hlen : 0 < len ts) by (destruct ts; [congruence | unfold len; simpl; lia]).
  pose proof Hv as Hv'. unfold find_bound in Hv'. rewrite find_bound_defaults in Hv'.
  apply find_bound_interval_index in Hv' as (i & -> & Hi); [eauto | lia | lia].
Qed.

Lemma find_bound_index_in_range_witness :
  [30; 10; 20] <> [] /\
  exists i, find_bound (num 15) [30; 10; 20] = Some (num i) /\ 0 <= i <= len [30; 10; 20].
Proof.
  assert (H : [30; 10; 20] <> []) by discriminate.
  split; [exact H | exact (find_bound_index_in_range 15 [30; 10; 20] H)].
Defined.

(** X3: a range query that carries only an upper bound, on an error type without
    history, never returns: the search for [undefined] takes the out-of-range
    midpoint for a hit and scans downwards for ever. *)
Theorem find_range_upper_only_hangs (k : string) (t : value) (a : alerter) :
  history k a = [] -> truthy t = true ->
  _find_range k (Range undefined t) a = None /\
  forall fuel, _find_bound fuel undefined (history k a) None None = None.
Proof.
  intros Hh Ht. split.
  - unfold _find_range. fold (history k a). rewrite Hh. simpl. rewrite Ht.
    reflexivity.
  - intros fuel. rewrite Hh. apply find_bound_hangs.
Qed.

Lemma find_range_upper_only_hangs_witness :
  _find_range "db_error" (Range undefined (num 5)) new_alerter = None.
Proof.
  apply (find_range_upper_only_hangs "db_error" (num 5) new_alerter); reflexivity.
Defined.

Lemma lower_bound_tail (T x : Z) (l : list Z) (i : Z) :
  0 < i -> lower_bound T (x :: l) i -> lower_bound T l (i - 1).
Proof.
  intros Hi (Hb & Hlt & Hge). unfold lower_bound, len in *. simpl length in Hb.
  split; [lia|]. split.
  - intros j y Hj Hji. apply (Hlt (S j)); [assumption | lia].
  - intros j y Hj Hji. apply (Hge (S j)); [assumption | lia].
Qed.

Lemma lower_bound_head (T x : Z) (l : list Z) :
  lower_bound T (x :: l) 0 -> T <= x /\ lower_bound T l 0.
Proof.
  intros (Hb & Hlt & Hge). split; [apply (Hge O); [reflexivity | lia]|].
  split; [unfold len; lia|]. split.
  - intros j y Hj Hji. lia.
  - intros j y Hj Hji. apply (Hge (S j)); [assumption | lia].
Qed.

(** From the lower bound on, the history holds exactly the entries that are
    at least the target. *)
Lemma lower_bound_count (T : Z) (ts : list Z) (i : Z) :
  lower_bound T ts i ->
  Z.of_nat (length (filter (fun x => T <= x) ts)) = len ts - i.
Proof.
  revert i. induction ts as [|x l IH]; intros i Hlb.
  - destruct Hlb as (Hb & _). unfold len in *. simpl in *. lia.
  - destruct (Z.eq_dec i 0) as [->|Hi].
    + apply lower_bound_head in Hlb as [Hx Hl].
      rewrite filter_cons_True by assumption. specialize (IH 0 Hl).
      unfold len in *. simpl length. lia.
    + assert (Hpos : 0 < i) by (destruct Hlb as (Hb & _); lia).
      assert (x < T) by (destruct Hlb as (_ & Hlt & _); apply (Hlt O); [reflexivity | lia]).
      rewrite filter_cons_False by lia.
      specialize (IH (i - 1) (lower_bound_tail T x l i Hpos Hlb)).
      unfold len in *. simpl length. lia.
Qed.

Lemma find_bound_sorted (T : Z) (ts : list Z) :
  ts <> [] -> StronglySorted Z.le ts ->
  exists i, find_bound (num T) ts = Some (num i) /\ lower_bound T ts i.
Proof.
  intros Hne Hsorted.
  destruct (find_bound_num_returns T ts) as [v Hv].
  assert (Hlen : 0 < len ts) by (destruct ts; [congruence | unfold len; simpl; lia]).
  pose proof Hv as Hspec. unfold find_bound in Hspec. rewrite find_bound_defaults in Hspec.
  apply find_bound_interval_spec in Hspec as (i & -> & Hi).
  - exists i. split; [assumption | apply lower_bound_at_lookup; assumption].
  - apply StronglySorted_nondecreasing. assumption.
  - lia.
  - lia.
  - intros j x Hj Hlt. apply at_index_bounds in Hj. lia.
  - intros x Hx Hgt. rewrite Hx in Hgt. unfold js_gt, js_lt in Hgt.
    apply Z.ltb_ge in Hgt. assumption.
Qed.

Lemma find_range_count (k : string) (f : Z) (a : alerter) :
  f <> 0 -> history k a <> [] -> StronglySorted Z.le (history k a) ->
  error_count <$> _find_range k (Range (num f) undefined) a
  = Some (Some (occurrences_since f (history k a))).
Proof.
  intros Hf Hne Hsorted.
  destruct (find_bound_sorted f _ Hne Hsorted) as (i & Hi & Hlb).
  unfold _find_range. fold (history k a). simpl.
  destruct (Z.eqb_spec f 0); [contradiction|]. simpl. rewrite Hi. simpl.
  unfold error_count, occurrences_since. simpl. rewrite (lower_bound_count _ _ _ Hlb).
  do 2 f_equal. lia.
Qed.

(** X4: the count [_check] takes from a window query is exact: on a non-empty
    non-decreasing history, [to - from + 1] is the number of timestamps at
    or after the (non-zero) start of the window. *)
Theorem window_count_exact (k : string) (f : Z) (a : alerter) :
  f <> 0 -> history k a <> [] -> StronglySorted Z.le (history k a) ->
  error_count <$> _find_range k (Range (num f) undefined) a
  = Some (Some (occurrences_since f (history k a))).
Proof. apply find_range_count. Qed.

Lemma window_count_exact_witness :
  error_count <$> _find_range ALL (Range (num 1002) undefined) unset_threshold_alerter
  = Some (Some 3).
Proof.
  assert (Hh : history ALL unset_threshold_alerter = [1000; 1001; 1002; 1003; 1004])
    by (vm_compute; reflexivity).
  refine (window_count_exact ALL 1002 unset_threshold_alerter _ _ _).
  - lia.
  - rewrite Hh. discriminate.
  - rewrite Hh. repeat constructor; lia.
Defined.

(** ** Ingestion *)

Lemma same_config_refl (s : settings) : same_config s s.
Proof. repeat split. Qed.

Lemma same_config_trans (s1 s2 s3 : settings) :
  same_config s1 s2 -> same_config s2 s3 -> same_config s1 s3.
Proof. unfold same_config. intuition congruence. Qed.

(** The flush changes no configuration: it drops no settings, creates none,
    and leaves watch flag, log path and windows of every error type alone. *)
Lemma flush_keeps_config (a : alerter) :
  queued_configured a ->
  exists a', _flush_queued a = (Return tt, a') /\
    shell a' = shell a /\
    (forall k, history k a' = history k a) /\
    (forall k, _settings a !! k = None -> _settings a' !! k = None) /\
    (forall k s, _settings a !! k = Some s ->
       exists s', _settings a' !! k = Some s' /\ same_config s s') /\
    queued_configured a'.
Proof.
  intros Hcfg.
  destruct (flush_queued_spec a Hcfg) as (a' & Hrun & Hshell & Hhist & Hnone & Hsome).
  exists a'. split; [assumption|]. split; [assumption|]. split; [assumption|].
  assert (Hs : forall k s, _settings a !! k = Some s ->
                 exists s', _settings a' !! k = Some s' /\ same_config s s').
  { intros k s Hk. destruct (_queued a !! k) as [q|] eqn:Hq.
    - destruct (Hsome k) as (s0 & s' & Hs0 & _ & Hs' & Hsame); [eauto|].
      exists s'. split; [assumption|]. assert (s0 = s) by congruence. subst s0.
      exact Hsame.
    - destruct (Hnone k Hq) as (_ & _ & Hst). exists s.
      split; [congruence | apply same_config_refl]. }
  split; [|split; [exact Hs|]].
  - intros k Hk. destruct (_queued a !! k) as [q|] eqn:Hq.
    + destruct (Hcfg k) as [s Hs']; [eauto|]. congruence.
    + destruct (Hnone k Hq) as (_ & _ & Hst). congruence.
  - intros k Hk. destruct (_queued a !! k) as [q|] eqn:Hq.
    + destruct (Hcfg k) as [s Hs']; [eauto|].
      destruct (Hs k s Hs') as (s' & -> & _). eauto.
    + destruct (Hnone k Hq) as (_ & Hn & _). rewrite Hn in Hk.
      destruct Hk as [? ?]. discriminate.
Qed.

Lemma set_timespan_fields (k : window_key) (c : timespan) (s : settings) :
  watch (set_timespan k c s) = watch s /\ log (set_timespan k c s) = log s /\
  stream (set_timespan k c s) = stream s /\ draining (set_timespan k c s) = draining s.
Proof. destruct k; repeat split. Qed.

Lemma checked_refl (e : string) (a : alerter) : checked e a a.
Proof.
  split; [eauto 10|]. split; [auto|]. split; [reflexivity|]. split; [reflexivity|].
  exists []. split; [symmetry; apply app_nil_r | constructor].
Qed.

Lemma checked_trans (e : string) (a b c : alerter) :
  checked e a b -> checked e b c -> checked e a c.
Proof.
  intros (Ha & Oa & Ta & Qa & es1 & Ea & Fa) (Hb & Ob & Tb & Qb & es2 & Eb & Fb).
  split; [|split; [|split; [|split]]].
  - intros s Hs. destruct (Ha s Hs) as (s1 & Hs1 & W1 & L1 & S1 & D1).
    destruct (Hb s1 Hs1) as (s2 & Hs2 & W2 & L2 & S2 & D2).
    exists s2. split; [assumption|]. repeat split; congruence.
  - intros x Hx. rewrite Ob, Oa by assumption. reflexivity.
  - congruence.
  - congruence.
  - exists (es1 ++ es2). split; [rewrite Eb, Ea, <- app_assoc; reflexivity|].
    apply Forall_app. auto.
Qed.

(** A turn of the loop of [_check] touches the windows of its own error type
    only, and what it emits are the parts of an alert for that error type. *)
Lemma check_window_effects (fs : file_system) (e : string) (t : Z) (k : window_key)
    (a : alerter) :
  is_Some (_settings a !! e) -> checked e a (check_window fs e t k a).2.
Proof.
  intros [s Hs]. destruct (check_window_spec fs e t k a s Hs) as (range & _ & ->).
  destruct (fire_spec fs e t k s a) as (Hrun & Hst & Hts & Hq & _ & Heff).
  destruct (_ && _); [|apply checked_refl].
  rewrite Hrun. simpl.
  destruct (set_timespan_fields k (set_last_alert (Some t) (get_timespan k s)) s)
    as (Hw & Hl & Hstr & Hd).
  split; [|split; [|split; [|split]]].
  - intros s0 Hs0. assert (s0 = s) by congruence. subst s0.
    eexists. split; [rewrite Hst; apply lookup_insert_eq|]. auto.
  - intros c Hc. rewrite Hst. apply lookup_insert_ne. congruence.
  - assumption.
  - assumption.
  - eexists. split; [exact Heff|].
    unfold alert_effect_of.
    apply Forall_cons; split; [left; eauto|].
    apply Forall_cons; split; [right; left; eauto|].
    destruct (save_outcome fs e t k s a); [|constructor|constructor].
    apply Forall_cons; split; [right; right; eauto | constructor].
Qed.

Lemma check_effects (fs : file_system) (e : string) (t : Z) (a : alerter) :
  is_Some (_settings a !! e) -> checked e a (_check fs e t a).2.
Proof.
  apply (check_sequence fs e t (fun a _ a' => checked e a a')).
  - apply checked_refl.
  - intros x y _ z. apply checked_trans.
  - intros k x Hx. apply check_window_effects, Hx.
Qed.

(** [_tell] under a configured key: the timestamp goes to the end of the
    history of that key and of no other, the configuration of the other
    error types stays, and what is emitted are the parts of alerts for the
    key; the call returns, unless the state file of such an alert is
    refused. *)
Lemma tell_key_spec (fs : file_system) (key : string) (t : Z) (a : alerter) :
  queued_configured a -> is_Some (_settings a !! key) ->
  exists o a' es, _tell fs key t a = (o, a') /\
    returns_or_save_fails fs a o /\
    (saves fs a -> o = Return tt) /\
    history key a' = history key a ++ [t] /\
    (forall k, k <> key -> history k a' = history k a) /\
    (forall c, _settings a !! c = None -> _settings a' !! c = None) /\
    (forall c s, _settings a !! c = Some s ->
       exists s', _settings a' !! c = Some s' /\ watch s' = watch s /\ log s' = log s /\
         (c <> key -> same_config s s')) /\
    effects a' = effects a ++ es /\ Forall (alert_effect_of key) es /\
    queued_configured a' /\
    _root a' = _root a.
Proof.
  intros Hcfg Hkey.
  destruct (tell_key_frame fs key t a Hcfg Hkey)
    as (o & a' & Hrun & Ho & Hsv & Hnone' & _ & Hcfg' & Hroot).
  destruct (tell_key_pushes fs key t a Hcfg Hkey) as [Hown Hother].
  rewrite Hrun in Hown, Hother. simpl in Hown, Hother.
  assert (Hrest :
    (forall c s, _settings a !! c = Some s ->
       exists s', _settings a' !! c = Some s' /\ watch s' = watch s /\ log s' = log s /\
         (c <> key -> same_config s s')) /\
    exists es, effects a' = effects a ++ es /\ Forall (alert_effect_of key) es).
  { revert Hrun. unfold _tell, bind, modify.
    set (a0 := with_queued _ a).
    assert (Hcfg0 : queued_configured a0).
    { intros k Hk. destruct (decide (k = key)) as [->|Hne]; [assumption|].
      apply Hcfg. subst a0. simpl in Hk.
      destruct (_queued a !! key); rewrite lookup_insert_ne in Hk by congruence;
        assumption. }
    destruct (flush_keeps_config a0 Hcfg0) as (a1 & -> & Hshell & _ & _ & Hsome & _).
    destruct Hkey as [sk Hsk].
    destruct (Hsome key sk Hsk) as (sk1 & Hsk1 & Hsame1).
    pose proof (check_effects fs key t a1 (ex_intro _ sk1 Hsk1))
      as (Hk & Ho1 & _ & _ & es & Heff & Hall).
    destruct (_check fs key t a1) as [o1 a2]. simpl in *.
    intros Hrun. assert (a' = a2) by (destruct o1 as [[]| |]; congruence). subst a2.
    split.
    - intros c s Hc. destruct (decide (c = key)) as [->|Hne].
      + assert (s = sk) by (change (_settings a0) with (_settings a) in Hsk; congruence).
        subst s. destruct (Hk sk1 Hsk1) as (sk2 & Hsk2 & Hw & Hl & _).
        exists sk2. split; [assumption|].
        destruct Hsame1 as (Hw1 & Hl1 & _).
        split; [congruence|]. split; [congruence | contradiction].
      + destruct (Hsome c s Hc) as (s' & Hs' & Hsame). exists s'.
        rewrite (Ho1 c Hne). split; [assumption|].
        split; [apply Hsame|]. split; [apply Hsame | intros _; exact Hsame].
    - exists es. split; [|exact Hall]. rewrite Heff. f_equal.
      assert (He1 : effects a1 = effects a0) by (unfold shell in Hshell; congruence).
      rewrite He1. reflexivity. }
  destruct Hrest as (Hsome & es & Heff & Hall).
  exists o, a', es. auto 12.
Qed.





Lemma append_assoc (s1 s2 s3 : string) : (s1 +:+ s2) +:+ s3 = s1 +:+ (s2 +:+ s3).
Proof.
  induction s1 as [|c s1 IH]; [reflexivity|].
  change (String c ((s1 +:+ s2) +:+ s3) = String c (s1 +:+ (s2 +:+ s3))).
  f_equal. exact IH.
Qed.

Lemma length_append (s1 s2 : string) :
  String.length (s1 +:+ s2) = (String.length s1 + String.length s2)%nat.
Proof. induction s1 as [|c s1 IH]; simpl; [reflexivity | rewrite IH; reflexivity]. Qed.

(** Two strings that end in suffixes of one length and are equal have equal
    parts. *)
Lemma append_inj_suffix (s1 s2 t1 t2 : string) :
  String.length t1 = String.length t2 ->
  s1 +:+ t1 = s2 +:+ t2 -> s1 = s2 /\ t1 = t2.
Proof.
  revert s2. induction s1 as [|c s1 IH]; intros [|c' s2] Hlen H; simpl in H.
  - auto.
  - exfalso. apply (f_equal String.length) in H.
    rewrite (length_append "" t1), (length_append (String c' s2) t2) in H.
    simpl in H. lia.
  - exfalso. apply (f_equal String.length) in H.
    rewrite (length_append (String c s1) t1), (length_append "" t2) in H.
    simpl in H. lia.
  - injection H as -> H. destruct (IH s2 Hlen H) as [-> ->]. auto.
Qed.

(** The subject of an alert names its error type: no alert for another error
    type carries the subject of an alert for [_all]. *)
Lemma alert_subject_all (c : string) (k k' : window_key) :
  alert_subject ALL (window_name k') = alert_subject c (window_name k) -> c = ALL.
Proof.
  unfold alert_subject. intros H. apply append_cancel_l in H.
  destruct k, k'; simpl in H;
    first
      [ (* windows of one length *)
        match type of H with
        | String.app ?e ?t1 = String.app c ?t2 =>
            destruct (append_inj_suffix e c t1 t2 eq_refl H) as [<- _]
        end; reflexivity
      | (* the subject of [_all] is the longer one *)
        exfalso;
        match type of H with
        | String.app ?e ?t1 = String.app c ?t2 =>
            let n := eval vm_compute in (String.length t1 - String.length t2)%nat in
            let x := eval vm_compute in (String.substring 0 n t1) in
            let y := eval vm_compute in (String.substring n (String.length t2) t1) in
            change (String.app e t1) with (String.app (String.app e x) y) in H;
            destruct (append_inj_suffix (String.app e x) c y t2 eq_refl H) as [_ Hy];
            discriminate Hy
        end
      | (* the subject of the other error type is the longer one *)
        exfalso;
        match type of H with
        | String.app ?e ?t1 = String.app c ?t2 =>
            let n := eval vm_compute in (String.length t2 - String.length t1)%nat in
            let x := eval vm_compute in (String.substring 0 n t2) in
            let y := eval vm_compute in (String.substring n (String.length t1) t2) in
            assert (Hsplit : String.app c t2 = String.app (String.app c x) y)
              by (rewrite append_assoc; reflexivity);
            rewrite Hsplit in H;
            destruct (append_inj_suffix e (String.app c x) t1 y eq_refl H) as [_ Hy];
            discriminate Hy
        end ].
Qed.

(** X7: an ignored error type is never recorded and never alerts: telling it,
    however the call ends, leaves its history, its windows and its last
    alerts as they are, sends no alert mail for it and calls no action for
    it; only [_all] may be told and alert. *)
Theorem ignored_never_recorded (fs : file_system) (t : Z) (c : string) (a : alerter)
    (all s : settings) :
  queued_configured a ->
  _settings a !! ALL = Some all -> _settings a !! c = Some s -> c <> ALL ->
  watch s = false ->
  exists o a' s' es, tell fs t (in_error c) a = (o, a') /\
    returns_or_save_fails fs a o /\
    history c a' = history c a /\
    _settings a' !! c = Some s' /\ same_config s s' /\
    effects a' = effects a ++ es /\
    (forall k, Act c k ∉ es) /\
    (forall f to k, Sendmail f to (alert_subject c (window_name k)) ∉ es).
Proof.
  intros Hcfg Hall Hs Hne Hw. rewrite tell_error. unfold bind.
  rewrite (settings_of_Some _ _ _ Hall).
  assert (Hfirst : exists o1 a1 s1 es,
            (if watch all then _tell fs ALL t else ret tt) a = (o1, a1) /\
            returns_or_save_fails fs a o1 /\
            history c a1 = history c a /\
            _settings a1 !! c = Some s1 /\ same_config s s1 /\
            effects a1 = effects a ++ es /\ Forall (alert_effect_of ALL) es).
  { destruct (watch all).
    - destruct (tell_key_spec fs ALL t a Hcfg)
        as (o1 & a1 & es & Hrun & Ho & _ & _ & Hoth & _ & Hst & He & Hf & _);
        [eauto|].
      destruct (Hst c s Hs) as (s1 & Hs1 & _ & _ & Hsame).
      exists o1, a1, s1, es. auto 10.
    - exists (Return tt), a, s, []. rewrite app_nil_r.
      split; [reflexivity|]. split; [left; reflexivity|].
      split; [reflexivity|]. split; [assumption|].
      split; [apply same_config_refl|]. split; [reflexivity | constructor]. }
  destruct Hfirst as (o1 & a1 & s1 & es & -> & Ho1 & Hh & Hs1 & Hsame & He & Hf).
  assert (Hquiet : (forall k, Act c k ∉ es) /\
                   (forall f to k, Sendmail f to (alert_subject c (window_name k)) ∉ es)).
  { rewrite Forall_forall in Hf. split.
    - intros k Hin. apply Hf in Hin.
      destruct Hin as [(f & to & k' & Hx)|[(p & st & Hx)|(k' & Hx)]]; congruence.
    - intros f to k Hin. apply Hf in Hin.
      destruct Hin as [(f' & to' & k' & Hx)|[(p & st & Hx)|(k' & Hx)]];
        [|discriminate|discriminate].
      assert (Hsub : alert_subject ALL (window_name k') = alert_subject c (window_name k))
        by congruence.
      apply alert_subject_all in Hsub. contradiction. }
  destruct Hquiet as [Hact Hmail].
  assert (Hw1 : watch s1 = false) by (destruct Hsame as (-> & _); assumption).
  destruct Ho1 as [->|(code & st & -> & Hfs)].
  - rewrite (settings_of_Some _ _ _ Hs1), Hw1.
    exists (Return tt), a1, s1, es. split; [reflexivity|].
    split; [left; reflexivity|]. auto 10.
  - exists (Throw (IOError code)), a1, s1, es. split; [reflexivity|].
    split; [right; eauto|]. auto 10.
Qed.

Lemma ignored_never_recorded_witness :
  exists o a' s' es,
    tell tmp_only 1000 (in_error "TypeError")
      (run (ignore (in_string "TypeError")) new_alerter)
    = (o, a') /\
    history "TypeError" a'
    = history "TypeError" (run (ignore (in_string "TypeError")) new_alerter) /\
    _settings a' !! "TypeError" = Some s' /\
    same_config (set_watch false _blank_settings) s' /\
    effects a' = effects (run (ignore (in_string "TypeError")) new_alerter) ++ es /\
    (forall k, Act "TypeError" k ∉ es) /\
    (forall f to k, Sendmail f to (alert_subject "TypeError" (window_name k)) ∉ es).
Proof.
  destruct (ignored_never_recorded tmp_only 1000 "TypeError"
           (run (ignore (in_string "TypeError")) new_alerter)
           _blank_settings (set_watch false _blank_settings))
    as (o & a' & s' & es & Hrun & _ & Hrest).
  - apply queued_configured_dec. vm_compute. reflexivity.
  - vm_compute. reflexivity.
  - vm_compute. reflexivity.
  - discriminate.
  - reflexivity.
  - exists o, a', s', es. split; [exact Hrun | exact Hrest].
Defined.

(** X8: with a clock that does not run backwards the history of a key stays
    non-decreasing: telling a timestamp that is at least every recorded one
    keeps the history sorted, as the binary search requires, however the
    call ends. *)
Theorem tell_keeps_history_sorted (fs : file_system) (key : string) (t : Z)
    (a : alerter) :
  queued_configured a -> is_Some (_settings a !! key) ->
  StronglySorted Z.le (history key a) ->
  Forall (fun x => x <= t) (history key a) ->
  exists o a', _tell fs key t a = (o, a') /\
    returns_or_save_fails fs a o /\
    (saves fs a -> o = Return tt) /\
    StronglySorted Z.le (history key a').
Proof.
  intros Hcfg Hkey Hsorted Hmax.
  destruct (tell_key_spec fs key t a Hcfg Hkey)
    as (o & a' & es & Hrun & Ho & Hsv & Hh & _).
  exists o, a'. split; [assumption|]. split; [assumption|]. split; [assumption|].
  rewrite Hh.
  apply StronglySorted_app_2; [|assumption | repeat constructor].
  intros x1 x2 H1 H2. apply list_elem_of_singleton in H2 as ->.
  rewrite Forall_forall in Hmax. apply Hmax. assumption.
Qed.

Lemma tell_keeps_history_sorted_witness :
  exists a', _tell writable ALL 1004 unset_threshold_alerter = (Return tt, a') /\
    StronglySorted Z.le (history ALL a').
Proof.
  assert (Hh : history ALL unset_threshold_alerter = [1000; 1001; 1002; 1003; 1004])
    by (vm_compute; reflexivity).
  destruct (tell_keeps_history_sorted writable ALL 1004 unset_threshold_alerter)
    as (o & a' & Hrun & _ & Hsaves & Hsorted).
  - apply queued_configured_dec. vm_compute. reflexivity.
  - vm_compute. eauto.
  - rewrite Hh. repeat constructor; lia.
  - rewrite Hh. repeat constructor; lia.
  - rewrite (Hsaves (fun _ => eq_refl)) in Hrun.
    exists a'. split; [exact Hrun | exact Hsorted].
Defined.

(** ** Threshold evaluator *)

(** X9: an enabled window out of its cooldown runs the body of the reached
    threshold exactly when the number of occurrences since the start of the
    window reaches its threshold (on a non-empty non-decreasing history, the
    window not starting at time 0), and is left alone otherwise; the body
    ends as the write of the state file does, returning or throwing the
    error of the file system. *)
Theorem check_fires_exactly (fs : file_system) (e : string) (t : Z) (k : window_key)
    (a : alerter) (s : settings) (n : Z) :
  _settings a !! e = Some s ->
  enabled (get_timespan k s) = true ->
  cooling_down (get_timespan k s) t = false ->
  threshold (get_timespan k s) = Some n ->
  t - window k <> 0 -> history e a <> [] -> StronglySorted Z.le (history e a) ->
  check_window fs e t k a =
    if n <=? occurrences_since (t - window k) (history e a)
    then (match fs (state_path a) (alert_state e t k s a) with
          | None => Return tt
          | Some code => Throw (IOError code)
          end, alerted fs e t k s a)
    else (Return tt, a).
Proof.
  intros Hs Hen Hcool Hth Hf Hne Hsorted.
  destruct (check_window_spec fs e t k a s Hs) as (range & Hr & ->).
  pose proof (find_range_count e (t - window k) a Hf Hne Hsorted) as Hcount.
  rewrite Hr in Hcount. injection Hcount as Hcount.
  rewrite Hen, Hcool, Hth, Hcount. simpl.
  rewrite (proj1 (fire_spec fs e t k s a)). reflexivity.
Qed.

Lemma check_fires_exactly_witness :
  check_window tmp_only "RangeError" 120001 Minute
    (with_timestamps <[ "RangeError" := [60000; 120001] ]>
       (run (tell tmp_only 60000 (in_error "RangeError")) rootless_config))
  = (Throw (IOError "ENOENT"),
     alerted tmp_only "RangeError" 120001 Minute
       (set_timespan Minute (Timespan true (Some 1) (Some 1) (Some 60000)) _blank_settings)
       (with_timestamps <[ "RangeError" := [60000; 120001] ]>
          (run (tell tmp_only 60000 (in_error "RangeError")) rootless_config))).
Proof.
  set (a := with_timestamps <[ "RangeError" := [60000; 120001] ]>
              (run (tell tmp_only 60000 (in_error "RangeError")) rootless_config)).
  assert (Hh : history "RangeError" a = [60000; 120001]) by (vm_compute; reflexivity).
  refine (check_fires_exactly tmp_only "RangeError" 120001 Minute a
            (set_timespan Minute (Timespan true (Some 1) (Some 1) (Some 60000)) _blank_settings)
            1 _ _ _ _ _ _ _).
  - vm_compute. reflexivity.
  - reflexivity.
  - reflexivity.
  - reflexivity.
  - vm_compute. discriminate.
  - rewrite Hh. discriminate.
  - rewrite Hh. repeat constructor; lia.
Defined.

(** X10: an alert opens its cooldown: after the body of a reached threshold
    has run at [t] (not the time 0), to its end or up to a refused state
    file, every check of that window up to [cooldown] minutes later, that
    minute included, leaves the alerter as it is, whatever the count. *)
Theorem alert_opens_cooldown (fs fs' : file_system) (e : string) (t t' : Z)
    (k : window_key) (a : alerter) (s : settings) (minutes : Z) :
  _settings a !! e = Some s ->
  cooldown (get_timespan k s) = Some minutes ->
  t <> 0 -> t' - t <= minutes * 60000 ->
  check_window fs' e t' k (alerted fs e t k s a) = (Return tt, alerted fs e t k s a).
Proof.
  intros Hs Hcd Ht Hin.
  destruct (fire_spec fs e t k s a) as (_ & Hst & _).
  assert (Hs' : _settings (alerted fs e t k s a) !! e
                = Some (set_timespan k (set_last_alert (Some t) (get_timespan k s)) s))
    by (rewrite Hst; apply lookup_insert_eq).
  destruct (check_window_spec fs' e t' k _ _ Hs') as (range & _ & ->).
  rewrite get_set_timespan_eq.
  assert (Hcool : cooling_down (set_last_alert (Some t) (get_timespan k s)) t' = true).
  { unfold cooling_down. simpl. rewrite Hcd.
    destruct (Z.eqb_spec t 0); [contradiction|]. simpl. apply Z.leb_le. lia. }
  rewrite Hcool, andb_false_r. reflexivity.
Qed.

Lemma alert_opens_cooldown_witness :
  check_window tmp_only "RangeError" 120000 Minute
    (alerted tmp_only "RangeError" 60000 Minute
       (set_timespan Minute (Timespan true (Some 1) (Some 1) None) _blank_settings)
       boundary_config)
  = (Return tt,
     alerted tmp_only "RangeError" 60000 Minute
       (set_timespan Minute (Timespan true (Some 1) (Some 1) None) _blank_settings)
       boundary_config).
Proof.
  refine (alert_opens_cooldown tmp_only tmp_only "RangeError" 60000 120000 Minute
            boundary_config
            (set_timespan Minute (Timespan true (Some 1) (Some 1) None) _blank_settings)
            1 _ _ _ _).
  - vm_compute. reflexivity.
  - reflexivity.
  - lia.
  - lia.
Defined.

(** X11: the body of a reached threshold.  The mail goes out (from the
    configured sender to all contacts) and the state file is written under
    the root before the action runs; the state handed to the file system
    already holds the new alert time, beside the last alerts of every other
    configured error type.  When the file system takes the file, the action
    is called and the body returns; when it refuses, the body throws the
    error of the file system and the action is not called. *)
Theorem alert_state_saved (fs : file_system) (e : string) (t : Z) (k : window_key)
    (a : alerter) (s : settings) :
  _settings a !! e = Some s ->
  let state := alert_state e t k s a in
  fire fs e t k s a
  = (match fs (state_path a) state with
     | None => Return tt
     | Some code => Throw (IOError code)
     end, alerted fs e t k s a) /\
  effects (alerted fs e t k s a) =
    effects a ++
    [ Sendmail (_from a) (String.concat ", " (_contacts a))
        (alert_subject e (window_name k));
      WriteState (state_path a) state ] ++
    match fs (state_path a) state with None => [Act e k] | Some _ => [] end /\
  (e, last_alerts (set_timespan k (set_last_alert (Some t) (get_timespan k s)) s)) ∈ state /\
  (forall c sc, c <> e -> _settings a !! c = Some sc -> (c, last_alerts sc) ∈ state) /\
  (forall c x, (c, x) ∈ state -> is_Some (_settings a !! c)).
Proof.
  intros Hs state.
  destruct (fire_spec fs e t k s a) as (Hrun & _ & _ & _ & _ & Heff).
  split; [exact Hrun|]. split.
  { rewrite Heff. unfold save_outcome. fold state.
    destruct (fs (state_path a) state); reflexivity. }
  unfold state, alert_state, snapshot. simpl.
  split; [|split].
  - apply list_elem_of_fmap. eexists (e, _). split; [reflexivity|].
    apply elem_of_map_to_list, lookup_insert_eq.
  - intros c sc Hc Hsc. apply list_elem_of_fmap. exists (c, sc). split; [reflexivity|].
    apply elem_of_map_to_list. rewrite lookup_insert_ne by congruence. assumption.
  - intros c x Hin. apply list_elem_of_fmap in Hin as ([c' sc] & [= -> ->] & Hin).
    apply elem_of_map_to_list in Hin.
    destruct (decide (c' = e)) as [->|Hne]; [eauto|].
    rewrite lookup_insert_ne in Hin by congruence. eauto.
Qed.

Lemma alert_state_saved_witness :
  let s := set_timespan Minute (Timespan true (Some 1) (Some 1) None) _blank_settings in
  (fire tmp_only "RangeError" 60000 Minute s rootless_config).1
  = Throw (IOError "ENOENT") /\
  effects (alerted tmp_only "RangeError" 60000 Minute s rootless_config) =
    effects rootless_config ++
    [ Sendmail None "" (alert_subject "RangeError" "minute");
      WriteState "undefined/_state"
        (alert_state "RangeError" 60000 Minute s rootless_config) ] /\
  ("RangeError", (Some 60000, None, None))
    ∈ alert_state "RangeError" 60000 Minute s rootless_config.
Proof.
  intros s.
  destruct (alert_state_saved tmp_only "RangeError" 60000 Minute rootless_config s)
    as (Hrun & Heff & Hown & _).
  - vm_compute. reflexivity.
  - split; [rewrite Hrun; reflexivity|]. split; [exact Heff | exact Hown].
Defined.

(** ** Persistence: what the flush writes *)

Lemma write_settings (k : string) (data : list Z) (a : alerter) (s : settings) :
  _settings a !! k = Some s ->
  _settings (run (_write k data) a) !! k =
    Some (if truthy_str (log s)
          then match draining s, stream s with
               | false, Some st => written data st s
               | _, _ => s
               end
          else s).
Proof.
  intros Hs. unfold run, _write, bind. rewrite (settings_of_Some _ _ _ Hs).
  destruct (truthy_str (log s)); simpl; [|assumption].
  destruct (draining s) eqn:Hd; [assumption|].
  destruct (stream s) as [st|]; [|assumption].
  unfold written, stream_write, modify, ret. simpl. rewrite lookup_insert_eq, Hd.
  destruct (_ <? _); reflexivity.
Qed.

Lemma flush_key_settings (k : string) (a : alerter) :
  _settings (run (flush_key k) a)
  = _settings (run (_write k (default [] (_queued a !! k))) a).
Proof.
  unfold run, flush_key, bind, gets.
  destruct (_write k (default [] (_queued a !! k)) a) as [[[]| |] a1]; reflexivity.
Qed.

(** After the flush the settings of a queued key are those one write attempt
    on its queue leaves. *)
Lemma for_in_flush_settings (l : list string) :
  NoDup l -> forall a,
  (forall k, k ∈ l -> is_Some (_settings a !! k)) ->
  forall k s, k ∈ l -> _settings a !! k = Some s ->
    _settings (run (for_in l flush_key) a) !! k
    = _settings (run (_write k (default [] (_queued a !! k))) a) !! k.
Proof.
  induction 1 as [|k0 l Hk0 Hnd IH]; intros a Hcfg k s Hk Hs.
  - apply elem_of_nil in Hk. contradiction.
  - destruct (Hcfg k0) as [s0 Hs0]; [left|].
    destruct (flush_key_spec k0 a s0 Hs0) as (a1 & Hrun & _ & _ & Hother & Hown).
    assert (Hcfg1 : forall k', k' ∈ l -> is_Some (_settings a1 !! k')).
    { intros k' Hk'. destruct (Hother k') as (_ & _ & ->); [intros ->; contradiction|].
      apply Hcfg. right. assumption. }
    assert (Hfold : run (for_in (k0 :: l) flush_key) a = run (for_in l flush_key) a1).
    { unfold run. simpl. unfold bind. rewrite Hrun. reflexivity. }
    rewrite Hfold.
    assert (Ha1 : _settings a1 = _settings (run (_write k0 (default [] (_queued a !! k0))) a)).
    { rewrite <- flush_key_settings. unfold run. rewrite Hrun. reflexivity. }
    apply elem_of_cons in Hk as [->|Hl].
    + destruct (for_in_flush l Hnd a1 Hcfg1) as (a' & Hrun' & _ & Hout & _).
      unfold run at 1. rewrite Hrun'. simpl.
      destruct (Hout k0 Hk0) as (_ & _ & ->). rewrite Ha1. reflexivity.
    + assert (Hne : k <> k0) by (intros ->; contradiction).
      destruct (Hother k Hne) as (_ & Hq & Hst).
      assert (Hs1 : _settings a1 !! k = Some s) by congruence.
      rewrite (IH a1 Hcfg1 k s Hl Hs1), Hq.
      rewrite (write_settings _ _ _ _ Hs1), (write_settings _ _ _ _ Hs). reflexivity.
Qed.

Lemma flush_queued_settings (a : alerter) (k : string) (q : list Z) (s : settings) :
  queued_configured a -> _queued a !! k = Some q -> _settings a !! k = Some s ->
  _settings (run _flush_queued a) !! k = _settings (run (_write k q) a) !! k.
Proof.
  intros Hcfg Hq Hs. unfold _flush_queued, run at 1.
  change ((for_in (keys (_queued a)) flush_key a).2)
    with (run (for_in (keys (_queued a)) flush_key) a).
  rewrite (for_in_flush_settings _ (keys_NoDup _) a) with (s := s); [| |apply elem_of_keys; eauto|assumption].
  - rewrite Hq. reflexivity.
  - intros k' Hk'. apply Hcfg, elem_of_keys. assumption.
Qed.

Lemma flush_open_stream (a : alerter) (k : string) (q : list Z) (s : settings)
    (st : wstream) :
  queued_configured a ->
  _queued a !! k = Some q -> _settings a !! k = Some s ->
  truthy_str (log s) = true -> draining s = false -> stream s = Some st ->
  exists a' s' st',
    _flush_queued a = (Return tt, a') /\
    _settings a' !! k = Some s' /\ stream s' = Some st' /\
    ws_chunks st' = ws_chunks st ++ [join_lines q] /\
    ws_pending st' = ws_pending st + Z.of_nat (String.length (join_lines q)) /\
    draining s' = (ws_high_water_mark st <=? ws_pending st') /\
    _timestamps a' !! k = Some (default [] (_timestamps a !! k) ++ q) /\
    _queued a' !! k = None.
Proof.
  intros Hcfg Hq Hs Hlog Hd Hst.
  pose proof (flush_queued_settings a k q s Hcfg Hq Hs) as Hset.
  rewrite (write_settings _ _ _ _ Hs), Hlog, Hd, Hst in Hset.
  destruct (flush_queued_spec a Hcfg) as (a' & Hrun & _ & _ & _ & Hsome).
  unfold run in Hset. rewrite Hrun in Hset. simpl in Hset.
  destruct (Hsome k) as (s0 & s1 & Hs0 & Hfl & _); [eauto|].
  assert (s0 = s) by congruence. subst s0.
  unfold flushed, accepts in Hfl. rewrite Hlog, Hd, Hst in Hfl. simpl in Hfl.
  destruct Hfl as [Hts Hqn]. unfold history in Hts. rewrite Hq in Hts.
  unfold written, stream_write in Hset. rewrite Hd in Hset.
  eexists a', _, _. split; [exact Hrun|]. split; [exact Hset|].
  simpl. split; [reflexivity|]. split; [reflexivity|]. split; [reflexivity|].
  split; [|split; [exact Hts | exact Hqn]].
  rewrite orb_false_r, Z.leb_antisym. reflexivity.
Qed.

(** X12: what the flush writes: for a logged error type whose stream is open and
    not draining, exactly one chunk, the queue newline-joined, goes to the
    stream, the queue moves behind the saved timestamps, and the draining
    flag goes up when the buffer has filled. *)
Theorem flush_writes_queue (a : alerter) (k : string) (q : list Z) (s : settings)
    (st : wstream) :
  queued_configured a ->
  _queued a !! k = Some q -> _settings a !! k = Some s ->
  truthy_str (log s) = true -> draining s = false -> stream s = Some st ->
  exists a' s' st',
    _flush_queued a = (Return tt, a') /\
    _settings a' !! k = Some s' /\ stream s' = Some st' /\
    ws_chunks st' = ws_chunks st ++ [join_lines q] /\
    ws_pending st' = ws_pending st + Z.of_nat (String.length (join_lines q)) /\
    draining s' = (ws_high_water_mark st <=? ws_pending st') /\
    _timestamps a' !! k = Some (default [] (_timestamps a !! k) ++ q) /\
    _queued a' !! k = None.
Proof. apply flush_open_stream. Qed.

Lemma flush_writes_queue_witness :
  exists a' s' st',
    _flush_queued logging_alerter = (Return tt, a') /\
    _settings a' !! ALL = Some s' /\ stream s' = Some st' /\
    ws_chunks st' = [] ++ [join_lines [1000; 2000; 3000]].
Proof.
  destruct (flush_writes_queue logging_alerter ALL [1000; 2000; 3000]
              (set_stream (Some (createWriteStream "/tmp/x")) false
                 (set_log (Some "/tmp/x") _blank_settings))
              (createWriteStream "/tmp/x"))
    as (a' & s' & st' & Hrun & Hs' & Hst' & Hchunks & _).
  - apply queued_configured_dec. vm_compute. reflexivity.
  - vm_compute. reflexivity.
  - vm_compute. reflexivity.
  - reflexivity.
  - reflexivity.
  - reflexivity.
  - exists a', s', st'. auto.
Defined.

(** X13: backpressure holds data and drops none: while the stream of a logged
    error type is draining, the flush writes nothing and keeps the queue;
    once the drain event has been handled, the next flush writes the whole
    held queue as one chunk and empties it. *)
Theorem drain_resumes_writing (a : alerter) (k : string) (q : list Z) (s : settings)
    (st : wstream) :
  queued_configured a ->
  _queued a !! k = Some q -> _settings a !! k = Some s ->
  truthy_str (log s) = true -> draining s = true -> stream s = Some st ->
  (exists a1, _flush_queued a = (Return tt, a1) /\
     _queued a1 !! k = Some q /\ _timestamps a1 !! k = _timestamps a !! k /\
     _settings a1 !! k = Some s) /\
  (exists a2 s2 st2, (_set_draining k ;; _flush_queued) a = (Return tt, a2) /\
     _settings a2 !! k = Some s2 /\ stream s2 = Some st2 /\
     ws_chunks st2 = ws_chunks st ++ [join_lines q] /\
     _timestamps a2 !! k = Some (default [] (_timestamps a !! k) ++ q) /\
     _queued a2 !! k = None).
Proof.
  intros Hcfg Hq Hs Hlog Hd Hst. split.
  - pose proof (flush_queued_settings a k q s Hcfg Hq Hs) as Hset.
    rewrite (write_settings _ _ _ _ Hs), Hlog, Hd in Hset.
    destruct (flush_queued_spec a Hcfg) as (a1 & Hrun & _ & _ & _ & Hsome).
    unfold run in Hset. rewrite Hrun in Hset. simpl in Hset.
    destruct (Hsome k) as (s0 & s1 & Hs0 & Hfl & _); [eauto|].
    assert (s0 = s) by congruence. subst s0.
    unfold flushed, accepts in Hfl. rewrite Hlog, Hd in Hfl. simpl in Hfl.
    destruct Hfl as [Hts Hqn]. exists a1.
    split; [assumption|]. split; [congruence|]. split; assumption.
  - unfold bind, _set_draining at 1, bind. rewrite (settings_of_Some _ _ _ Hs).
    unfold modify. rewrite Hst. simpl.
    set (b := with_settings _ a).
    assert (Hcfgb : queued_configured b).
    { eapply queued_configured_mono; [| |exact Hcfg]; [reflexivity|].
      intros k' Hk'. subst b. simpl. apply lookup_insert_is_Some'. auto. }
    destruct (flush_open_stream b k q
                (set_stream (Some (stream_drain st)) false s) (stream_drain st) Hcfgb)
      as (a2 & s2 & st2 & Hrun & Hs2 & Hst2 & Hch & _ & _ & Hts & Hqn);
      try reflexivity; try assumption.
    { subst b. simpl. apply lookup_insert_eq. }
    exists a2, s2, st2. auto 10.
Qed.

(** [all().log("/tmp/x")] with its stream filled up, and an entry held. *)
Lemma drain_resumes_writing_witness :
  exists a2 s2 st2,
    (_set_draining ALL ;; _flush_queued)
      (with_settings
         (alter (set_stream (Some (WStream "/tmp/x" ["1000" +:+ String newline ""] 16384 16384))
                   true) ALL)
         logging_alerter)
    = (Return tt, a2) /\
    _settings a2 !! ALL = Some s2 /\ stream s2 = Some st2 /\
    ws_chunks st2 = ["1000" +:+ String newline ""] ++ [join_lines [1000; 2000; 3000]].
Proof.
  destruct (drain_resumes_writing
      (with_settings
         (alter (set_stream (Some (WStream "/tmp/x" ["1000" +:+ String newline ""] 16384 16384))
                   true) ALL)
         logging_alerter)
      ALL [1000; 2000; 3000]
      (set_stream (Some (WStream "/tmp/x" ["1000" +:+ String newline ""] 16384 16384)) true
         (set_log (Some "/tmp/x") _blank_settings))
      (WStream "/tmp/x" ["1000" +:+ String newline ""] 16384 16384))
    as (_ & a2 & s2 & st2 & Hrun & Hs2 & Hst2 & Hch & _).
  - apply queued_configured_dec. vm_compute. reflexivity.
  - vm_compute. reflexivity.
  - vm_compute. reflexivity.
  - reflexivity.
  - reflexivity.
  - reflexivity.
  - exists a2, s2, st2. auto.
Defined.

(** ** Persistence: what is written is what is read back *)

Lemma pretty_N_char_one_line (x : N) : pretty_N_char x <> newline.
Proof. unfold pretty_N_char. repeat case_match; discriminate. Qed.

Lemma pretty_N_go_one_line (x : N) (s : string) :
  one_line s -> one_line (pretty_N_go x s).
Proof.
  revert s. induction (N.lt_wf_0 x) as [x _ IH]; intros s Hs.
  destruct (N.eq_dec x 0%N) as [->|Hx]; [rewrite pretty_N_go_0; assumption|].
  rewrite pretty_N_go_step by lia. apply IH.
  - apply N.div_lt; lia.
  - split; [apply pretty_N_char_one_line | assumption].
Qed.

Lemma pretty_N_one_line (x : N) : one_line (pretty x).
Proof.
  unfold pretty, pretty_N. case_decide.
  - split; [discriminate | exact I].
  - apply pretty_N_go_one_line. exact I.
Qed.

(** A printed timestamp holds no line break. *)
Lemma pretty_Z_one_line (z : Z) : one_line (pretty z).
Proof.
  destruct z as [|p|p]; unfold pretty, pretty_Z.
  - split; [discriminate | exact I].
  - apply pretty_N_one_line.
  - split; [discriminate | apply pretty_N_one_line].
Qed.

Lemma split_lines_line (line rest : string) :
  one_line line ->
  split_lines (line +:+ String newline rest) = line :: split_lines rest.
Proof.
  induction line as [|c line IH]; simpl.
  - intros _. reflexivity.
  - intros [Hc Hline]. rewrite (IH Hline).
    destruct (Ascii.eqb_spec c newline); [contradiction | reflexivity].
Qed.

Lemma join_lines_cons (x : Z) (data : list Z) :
  join_lines (x :: data)
  = pretty x +:+ String newline
      (match data with [] => EmptyString | _ => join_lines data end).
Proof.
  unfold join_lines. destruct data as [|y data].
  - reflexivity.
  - cbn [fmap list_fmap String.concat]. rewrite !append_assoc. reflexivity.
Qed.

(** The lines the chunk of a batch adds to a file: one line per timestamp,
    and a blank line for an empty batch. *)
Lemma split_lines_join (data : list Z) (rest : string) :
  split_lines (join_lines data +:+ rest)
  = (match data with [] => [EmptyString] | _ => pretty <$> data end) ++ split_lines rest.
Proof.
  destruct data as [|x data]; [reflexivity|].
  revert x. induction data as [|y data IH]; intros x.
  - rewrite join_lines_cons, append_assoc.
    change (String newline "" +:+ rest) with (String newline rest).
    rewrite split_lines_line by apply pretty_Z_one_line. reflexivity.
  - rewrite join_lines_cons, append_assoc.
    change (String newline (join_lines (y :: data)) +:+ rest)
      with (String newline (join_lines (y :: data) +:+ rest)).
    rewrite split_lines_line by apply pretty_Z_one_line.
    rewrite IH. reflexivity.
Qed.

Lemma parse_printed (parseInt : string -> option Z) (cutoff : Z) (data : list Z) :
  Forall (fun z => parseInt (pretty z) = Some z) data ->
  omap (recent cutoff) (parseInt <$> (pretty <$> data)) = filter (fun z => cutoff <= z) data.
Proof.
  induction 1 as [|z data Hz _ IH]; [reflexivity|].
  cbn [fmap list_fmap omap list_omap]. rewrite Hz. simpl recent.
  fold (@fmap list _ Z string pretty data).
  fold (@fmap list _ string (option Z) parseInt (pretty <$> data)).
  fold (@omap list _ (option Z) Z (recent cutoff) (parseInt <$> (pretty <$> data))).
  rewrite IH. destruct (Z.leb_spec cutoff z).
  - rewrite filter_cons_True by assumption. reflexivity.
  - rewrite filter_cons_False by lia. reflexivity.
Qed.

(** X14: what the flushes write is what the recovery reads back: a log file made
    of the chunks of any batches of timestamps parses to these timestamps
    in order, less the ones older than the cutoff; the blank lines of empty
    batches and of the end of the file are dropped. *)
Theorem log_round_trip (parseInt : string -> option Z) (cutoff : Z)
    (batches : list (list Z)) :
  parseInt EmptyString = None ->
  Forall (Forall (fun z => parseInt (pretty z) = Some z)) batches ->
  parse_log parseInt cutoff (file_content (join_lines <$> batches))
  = filter (fun z => cutoff <= z) (concat batches).
Proof.
  intros Hblank. unfold parse_log.
  induction 1 as [|data batches Hdata _ IH].
  - simpl. rewrite Hblank. reflexivity.
  - cbn [fmap list_fmap file_content foldr concat].
    fold (@fmap list _ (list Z) string join_lines batches).
    change (foldr String.append EmptyString (join_lines <$> batches))
      with (file_content (join_lines <$> batches)).
    rewrite split_lines_join, fmap_app, omap_app, IH, filter_app. f_equal.
    destruct data as [|z data].
    + simpl. rewrite Hblank. reflexivity.
    + apply parse_printed. assumption.
Qed.

Lemma log_round_trip_witness :
  parse_log parse_decimal 1500
    (file_content (join_lines <$> [[1000; 2000]; []; [3000]]))
  = [2000; 3000].
Proof.
  refine (log_round_trip parse_decimal 1500 [[1000; 2000]; []; [3000]] _ _).
  - reflexivity.
  - repeat constructor.
Defined.

(** ** Start-up recovery: the join and the saved state *)

(** The join: when nothing is outstanding the alerter becomes ready, the
    queues are flushed and the callback of [start] is called, once; before
    that, nothing happens.  No configuration and no history changes. *)
Lemma finish_spec (r : recovery) (a : alerter) :
  queued_configured a ->
  exists a', finish_if_joined r a = (Return r, a') /\
    (forall k, history k a' = history k a) /\
    (forall k, _settings a !! k = None -> _settings a' !! k = None) /\
    (forall k s, _settings a !! k = Some s ->
       exists s', _settings a' !! k = Some s' /\ same_config s s') /\
    effects a' = effects a ++ (if joined r then [Callback None] else []) /\
    _ready a' = (if joined r then true else _ready a) /\
    queued_configured a'.
Proof.
  intros Hcfg. unfold finish_if_joined. fold (joined r).
  destruct (joined r).
  - unfold bind, modify, ret.
    destruct (flush_keeps_config (with_ready true a) Hcfg)
      as (a1 & -> & Hshell & Hhist & Hnone & Hsome & Hcfg1).
    eexists. split; [reflexivity|]. simpl.
    split; [exact Hhist|]. split; [exact Hnone|]. split; [exact Hsome|].
    unfold shell in Hshell. simpl in Hshell.
    split; [f_equal; congruence|]. split; [congruence | exact Hcfg1].
  - exists a. unfold ret. split; [reflexivity|]. split; [reflexivity|].
    split; [auto|]. split; [intros k s Hs; exists s; split;
                            [assumption | apply same_config_refl]|].
    split; [symmetry; apply app_nil_r|]. split; [reflexivity | assumption].
Qed.

Lemma restore_lookup_notin (json : list (string * saved_alerts))
    (all : gmap string settings) (k : string) :
  k ∉ json.*1 ->
  foldl (fun all '(error_type, saved) => alter (restore_alerts saved) error_type all)
        all json !! k
  = all !! k.
Proof.
  revert all. induction json as [|[k0 sv0] json IH]; intros all Hk; [reflexivity|].
  simpl in *. apply not_elem_of_cons in Hk as [Hne Hk].
  rewrite (IH _ Hk). apply lookup_alter_ne. congruence.
Qed.

Lemma restore_lookup_in (json : list (string * saved_alerts))
    (all : gmap string settings) (k : string) (saved : saved_alerts) :
  NoDup json.*1 -> (k, saved) ∈ json ->
  foldl (fun all '(error_type, saved) => alter (restore_alerts saved) error_type all)
        all json !! k
  = restore_alerts saved <$> all !! k.
Proof.
  revert all. induction json as [|[k0 sv0] json IH]; intros all Hnd Hin.
  - apply elem_of_nil in Hin. contradiction.
  - simpl in Hnd. apply NoDup_cons in Hnd as [Hk0 Hnd]. simpl.
    apply elem_of_cons in Hin as [[= -> ->]|Hin].
    + rewrite (restore_lookup_notin _ _ _ Hk0). apply lookup_alter_eq.
    + rewrite (IH _ Hnd Hin). rewrite lookup_alter_ne; [reflexivity|].
      intros ->. apply Hk0. apply list_elem_of_fmap. exists (k, saved). auto.
Qed.

Lemma snapshot_keys (a : alerter) : (read_back (snapshot a)).*1 = keys (_settings a).
Proof.
  unfold read_back, snapshot, keys. rewrite <- !list_fmap_compose.
  apply list_fmap_ext. intros i [k s] _. reflexivity.
Qed.

Lemma snapshot_elem (a : alerter) (k : string) (s : settings) :
  _settings a !! k = Some s ->
  (k, SavedAlerts (last_alert (minute s)) (last_alert (hour s)) (last_alert (day s)))
  ∈ read_back (snapshot a).
Proof.
  intros Hs. unfold read_back, snapshot. rewrite <- list_fmap_compose.
  apply list_elem_of_fmap. exists (k, s). split; [reflexivity|].
  apply elem_of_map_to_list. assumption.
Qed.

Lemma save_snapshot (fs : file_system) (a : alerter) :
  effects (run (_save fs) a) = effects a ++ [WriteState (state_path a) (snapshot a)].
Proof.
  unfold run, _save. change (_ <$> map_to_list (_settings a)) with (snapshot a).
  destruct (fs (state_path a) (snapshot a)); reflexivity.
Qed.

(** X15: the cooldown timers survive a restart: when the state one alerter saved
    is read back into another, every error type configured in both gets the
    saved last alerts on its three windows, and keeps its own watch flag,
    log path, thresholds, cooldowns and enablement. *)
Theorem saved_state_round_trip (fs : file_system) (a b : alerter) (r : recovery)
    (k : string) (sa sb : settings) :
  queued_configured b ->
  _settings a !! k = Some sa -> _settings b !! k = Some sb ->
  exists path b' sb',
    effects (run (_save fs) a) = effects a ++ [WriteState path (snapshot a)] /\
    restore_state (read_back (snapshot a)) r b = (Return (flag_state_loaded r), b') /\
    _settings b' !! k = Some sb' /\
    watch sb' = watch sb /\ log sb' = log sb /\
    minute sb' = set_last_alert (last_alert (minute sa)) (minute sb) /\
    hour sb' = set_last_alert (last_alert (hour sa)) (hour sb) /\
    day sb' = set_last_alert (last_alert (day sa)) (day sb).
Proof.
  intros Hcfg Hsa Hsb. exists (state_path a). rewrite save_snapshot.
  unfold restore_state, bind, modify.
  set (b1 := with_settings _ b).
  assert (Hb1 : _settings b1 !! k
                = Some (restore_alerts
                          (SavedAlerts (last_alert (minute sa)) (last_alert (hour sa))
                             (last_alert (day sa))) sb)).
  { subst b1. simpl.
    rewrite (restore_lookup_in _ _ k
               (SavedAlerts (last_alert (minute sa)) (last_alert (hour sa))
                  (last_alert (day sa)))).
    - rewrite Hsb. reflexivity.
    - rewrite snapshot_keys. apply keys_NoDup.
    - apply snapshot_elem. assumption. }
  assert (Hcfg1 : queued_configured b1).
  { eapply queued_configured_mono; [| |exact Hcfg]; [reflexivity|].
    intros k' Hk'. subst b1. simpl. apply restore_keeps_settings. assumption. }
  destruct (finish_spec (flag_state_loaded r) b1 Hcfg1)
    as (b' & -> & _ & _ & Hsome & _).
  destruct (Hsome k _ Hb1) as (sb' & Hsb' & Hw & Hl & Hm & Hh & Hd).
  exists b', sb'. split; [reflexivity|]. split; [reflexivity|].
  split; [assumption|]. split; [exact Hw|]. split; [exact Hl|].
  split; [exact Hm|]. split; [exact Hh | exact Hd].
Qed.

Lemma saved_state_round_trip_witness :
  exists path b' sb',
    effects (run (_save tmp_only) boundary_alerted)
    = effects boundary_alerted ++ [WriteState path (snapshot boundary_alerted)] /\
    restore_state (read_back (snapshot boundary_alerted))
      (Recovery 0 false 0 false false false 0) boundary_config
    = (Return (flag_state_loaded (Recovery 0 false 0 false false false 0)), b') /\
    _settings b' !! "RangeError" = Some sb' /\
    minute sb' = Timespan true (Some 1) (Some 1) (Some 60000).
Proof.
  destruct (saved_state_round_trip tmp_only boundary_alerted boundary_config
              (Recovery 0 false 0 false false false 0) "RangeError"
              (set_timespan Minute (Timespan true (Some 1) (Some 1) (Some 60000))
                 _blank_settings)
              (set_timespan Minute (Timespan true (Some 1) (Some 1) None) _blank_settings))
    as (path & b' & sb' & Hsave & Hrun & Hsb' & _ & _ & Hm & _).
  - apply queued_configured_dec. vm_compute. reflexivity.
  - vm_compute. reflexivity.
  - vm_compute. reflexivity.
  - exists path, b', sb'. auto.
Defined.

Lemma restore_keeps_log (json : list (string * saved_alerts))
    (all : gmap string settings) (k : string) (s : settings) :
  all !! k = Some s ->
  exists s', foldl (fun all '(error_type, saved) => alter (restore_alerts saved) error_type all)
               all json !! k = Some s' /\ log s' = log s /\ watch s' = watch s.
Proof.
  revert all s. induction json as [|[k0 sv0] json IH]; intros all s Hs; [eauto|].
  simpl. destruct (decide (k0 = k)) as [->|Hne].
  - destruct (IH (alter (restore_alerts sv0) k all) (restore_alerts sv0 s))
      as (s' & Hs' & Hl & Hw).
    { rewrite lookup_alter_eq, Hs. reflexivity. }
    exists s'. auto.
  - apply IH. rewrite lookup_alter_ne by assumption. assumption.
Qed.

(** A completion without an error, delivered before any error: the closure
    counts it, the callback of [start] is called exactly when nothing is
    outstanding any more, and every logged error type stays logged. *)
Lemma deliver_succeeded (parseInt : string -> option Z) (ev : completion)
    (r : recovery) (a : alerter) :
  succeeded ev = true -> failed r = false ->
  (forall key result, ev = ReadDone key result -> logged a key) ->
  queued_configured a ->
  exists a', deliver parseInt ev r a = (Return (advance ev r), a') /\
    effects a' = effects a ++ (if joined (advance ev r) then [Callback None] else []) /\
    _ready a' = (if joined (advance ev r) then true else _ready a) /\
    (forall key, logged a key -> logged a' key) /\
    queued_configured a'.
Proof.
  intros Hok Hfail Hlog Hcfg.
  assert (Hfinish : forall r1 a1,
            queued_configured a1 ->
            (forall key, logged a key -> logged a1 key) ->
            effects a1 = effects a -> _ready a1 = _ready a ->
            exists a', finish_if_joined r1 a1 = (Return r1, a') /\
              effects a' = effects a ++ (if joined r1 then [Callback None] else []) /\
              _ready a' = (if joined r1 then true else _ready a) /\
              (forall key, logged a key -> logged a' key) /\
              queued_configured a').
  { intros r1 a1 Hcfg1 Hlog1 He1 Hr1.
    destruct (finish_spec r1 a1 Hcfg1) as (a' & Hrun & _ & _ & Hsome & Heff & Hready & Hcfg').
    exists a'. split; [assumption|]. split; [rewrite Heff, He1; reflexivity|].
    split; [rewrite Hready, Hr1; reflexivity|].
    split; [|assumption].
    intros key Hk. destruct (Hlog1 key Hk) as (s1 & path & Hs1 & Hp).
    destruct (Hsome key s1 Hs1) as (s' & Hs' & _ & Hl & _).
    exists s', path. split; [assumption | congruence]. }
  destruct ev as [key result|result]; simpl deliver; simpl advance.
  - unfold readFile_callback. fold (failed r). rewrite Hfail.
    assert (Hload : forall data, exists a',
              load_log parseInt key data r a
              = (Return (count_down_opens (count_down_reads r)), a') /\
              effects a' = effects a ++
                (if joined (count_down_opens (count_down_reads r)) then [Callback None] else []) /\
              _ready a' = (if joined (count_down_opens (count_down_reads r))
                           then true else _ready a) /\
              (forall key, logged a key -> logged a' key) /\
              queued_configured a').
    { intros data. destruct (Hlog key result eq_refl) as (s & path & Hs & Hp).
      unfold load_log, bind. rewrite (settings_of_Some _ _ _ Hs), Hp. unfold modify.
      apply Hfinish; try reflexivity.
      - intros k Hk. simpl in *. destruct (decide (k = key)) as [->|Hne].
        + rewrite lookup_insert_eq. eauto.
        + rewrite lookup_insert_ne by congruence.
          rewrite lookup_insert_ne in Hk by congruence. apply Hcfg. assumption.
      - intros k (sk & pk & Hsk & Hpk). unfold logged. simpl.
        destruct (decide (k = key)) as [->|Hne].
        + rewrite lookup_insert_eq. eexists _, path. split; [reflexivity|].
          simpl. exact Hp.
        + rewrite lookup_insert_ne by congruence. eauto. }
    destruct result as [data|code]; [apply Hload|].
    simpl in Hok. rewrite Hok. simpl. apply Hload.
  - unfold read_state_callback. fold (failed r). rewrite Hfail.
    assert (Hrestore : forall json, exists a',
              restore_state json r a = (Return (flag_state_loaded r), a') /\
              effects a' = effects a ++
                (if joined (flag_state_loaded r) then [Callback None] else []) /\
              _ready a' = (if joined (flag_state_loaded r) then true else _ready a) /\
              (forall key, logged a key -> logged a' key) /\
              queued_configured a').
    { intros json. unfold restore_state, bind, modify.
      apply Hfinish; try reflexivity.
      - eapply queued_configured_mono; [| |exact Hcfg]; [reflexivity|].
        intros k Hk. apply restore_keeps_settings. assumption.
      - intros k (sk & pk & Hsk & Hpk). unfold logged. simpl.
        destruct (restore_keeps_log json _ k sk Hsk) as (s' & Hs' & Hl & _).
        exists s', pk. split; [assumption | congruence]. }
    destruct result as [json|code]; [apply Hrestore|].
    simpl in Hok. rewrite Hok. simpl. apply Hrestore.
Qed.

Lemma reads_cons (ev : completion) (evs : list completion) :
  reads (ev :: evs) = (if is_read ev then 1 else 0) + reads evs.
Proof. unfold reads. simpl. destruct (is_read ev); simpl length; lia. Qed.

Lemma states_cons (ev : completion) (evs : list completion) :
  states (ev :: evs) = (if is_read ev then 0 else 1) + states evs.
Proof. unfold states. simpl. destruct (is_read ev); simpl length; lia. Qed.

Lemma reads_nonneg (evs : list completion) : 0 <= reads evs.
Proof. unfold reads. lia. Qed.

Lemma states_nonneg (evs : list completion) : 0 <= states evs.
Proof. unfold states. lia. Qed.

Lemma reads_app (l1 l2 : list completion) : reads (l1 ++ l2) = reads l1 + reads l2.
Proof.
  induction l1 as [|ev l1 IH]; [unfold reads; simpl; lia|].
  simpl app. rewrite !reads_cons, IH. lia.
Qed.

Lemma states_app (l1 l2 : list completion) : states (l1 ++ l2) = states l1 + states l2.
Proof.
  induction l1 as [|ev l1 IH]; [unfold states; simpl; lia|].
  simpl app. rewrite !states_cons, IH. lia.
Qed.

Lemma deliver_all_app (parseInt : string -> option Z) (l1 l2 : list completion)
    (r : recovery) (a : alerter) :
  deliver_all parseInt (l1 ++ l2) r a =
    match deliver_all parseInt l1 r a with
    | (Return r1, a1) => deliver_all parseInt l2 r1 a1
    | (Throw e, a1) => (Throw e, a1)
    | (Hang, a1) => (Hang, a1)
    end.
Proof.
  revert r a. induction l1 as [|ev l1 IH]; intros r a; [reflexivity|].
  simpl. unfold bind. destruct (deliver parseInt ev r a) as [[r1| |] a1]; auto.
Qed.

(** While a read or the state file is outstanding, completions without
    errors are counted and nothing else shows: no callback, not ready. *)
Lemma deliver_quiet (parseInt : string -> option Z) (pre : list completion) :
  forall (r : recovery) (a : alerter),
  Forall (fun ev => succeeded ev = true) pre ->
  failed r = false -> targets_logged a pre -> queued_configured a ->
  reads pre < reads_left r \/ (states pre = 0 /\ state_loaded r = false) ->
  exists r' a', deliver_all parseInt pre r a = (Return r', a') /\
    effects a' = effects a /\ _ready a' = _ready a /\
    failed r' = false /\
    reads_left r' = reads_left r - reads pre /\
    opens_left r' = opens_left r - reads pre /\
    state_loaded r' = (state_loaded r || (0 <? states pre)) /\
    (forall key, logged a key -> logged a' key) /\
    queued_configured a'.
Proof.
  induction pre as [|ev pre IH]; intros r a Hok Hfail Hlog Hcfg Hout.
  - exists r, a. unfold reads, states. simpl.
    rewrite orb_false_r, !Z.sub_0_r. auto 10.
  - apply Forall_cons in Hok as [Hev Hok].
    destruct (deliver_succeeded parseInt ev r a Hev Hfail) as (a1 & Hrun & Heff & Hready & Hl1 & Hcfg1).
    { intros key result ->. apply (Hlog key result). left. }
    { assumption. }
    rewrite reads_cons, states_cons in Hout.
    pose proof (reads_nonneg pre). pose proof (states_nonneg pre).
    assert (Hnj : joined (advance ev r) = false).
    { unfold joined. destruct ev as [key result|result]; simpl in *.
      - destruct Hout as [Hlt|[_ Hst]].
        + destruct (Z.eqb_spec (reads_left r - 1) 0); [lia | reflexivity].
        + rewrite Hst, andb_false_r. reflexivity.
      - destruct Hout as [Hlt|[Hst _]]; [|lia].
        destruct (Z.eqb_spec (reads_left r) 0); [lia | reflexivity]. }
    rewrite Hnj, app_nil_r in Heff. rewrite Hnj in Hready.
    destruct (IH (advance ev r) a1 Hok) as (r' & a' & Hrun' & He' & Hr' & Hf' & Hrl & Hol & Hsl & Hl' & Hcfg').
    { destruct ev; unfold failed in *; simpl; assumption. }
    { intros key result Hin. apply Hl1, (Hlog key result). right. assumption. }
    { assumption. }
    { destruct ev as [key result|result]; simpl in *.
      - destruct Hout as [Hlt|[Hst Hsl]]; [left; lia | right; split; [lia | assumption]].
      - destruct Hout as [Hlt|[Hst _]]; [left; lia | lia]. }
    exists r', a'. split.
    { simpl. unfold bind. rewrite Hrun. assumption. }
    split; [congruence|]. split; [congruence|]. split; [assumption|].
    rewrite reads_cons, states_cons.
    destruct ev as [key result|result]; simpl in *.
    + split; [lia|]. split; [lia|]. split; [|auto].
      rewrite Hsl, ?Z.add_0_l. reflexivity.
    + split; [lia|]. split; [lia|]. split; [|auto].
      rewrite Hsl.
      destruct (Z.ltb_spec 0 (1 + states pre)); [|lia]. rewrite orb_true_r. reflexivity.
Qed.

(** X16: the recovery joins once, after everything: when the reads of the [n]
    targets and the read of the state file complete without errors, in any
    order, the callback of [start] is called exactly once, without an
    error, and the alerter becomes ready, at the last completion; as long
    as a completion is outstanding no callback is called and the alerter is
    not made ready. *)
Theorem recovery_joins_once (parseInt : string -> option Z) (evs : list completion)
    (a : alerter) (n cutoff : Z) :
  queued_configured a -> targets_logged a evs ->
  Forall (fun ev => succeeded ev = true) evs ->
  reads evs = n -> states evs = 1 ->
  (exists r' a',
     deliver_all parseInt evs (Recovery n false n false false false cutoff) a
     = (Return r', a') /\
     effects a' = effects a ++ [Callback None] /\ _ready a' = true) /\
  (forall pre post, evs = pre ++ post -> post <> [] ->
     exists r1 a1,
       deliver_all parseInt pre (Recovery n false n false false false cutoff) a
       = (Return r1, a1) /\
       effects a1 = effects a /\ _ready a1 = _ready a).
Proof.
  intros Hcfg Hlog Hok Hreads Hstates.
  set (r0 := Recovery n false n false false false cutoff).
  assert (Hquiet : forall pre post, evs = pre ++ post -> post <> [] ->
            exists r1 a1, deliver_all parseInt pre r0 a = (Return r1, a1) /\
              effects a1 = effects a /\ _ready a1 = _ready a /\
              failed r1 = false /\
              reads_left r1 = n - reads pre /\ opens_left r1 = n - reads pre /\
              state_loaded r1 = (0 <? states pre) /\
              (forall key, logged a key -> logged a1 key) /\
              queued_configured a1).
  { intros pre post -> Hpost.
    rewrite reads_app in Hreads. rewrite states_app in Hstates.
    apply Forall_app in Hok as [Hok _].
    destruct (deliver_quiet parseInt pre r0 a Hok eq_refl)
      as (r1 & a1 & Hrun & He & Hr & Hf & Hrl & Hol & Hsl & Hl1 & Hcfg1).
    - intros key result Hin. apply (Hlog key result), elem_of_app. left. assumption.
    - assumption.
    - destruct post as [|ev post]; [contradiction|].
      rewrite reads_cons in Hreads. rewrite states_cons in Hstates.
      pose proof (reads_nonneg post). pose proof (states_nonneg post).
      pose proof (states_nonneg pre).
      simpl reads_left. simpl state_loaded.
      destruct (is_read ev); [left; lia | right; split; [lia | reflexivity]].
    - exists r1, a1. simpl in Hrl, Hol, Hsl. auto 10. }
  split.
  - destruct (exists_last (l := evs)) as (pre & last & Hevs).
    { intros ->. unfold states in Hstates. simpl in Hstates. lia. }
    destruct (Hquiet pre [last] Hevs) as (r1 & a1 & Hrun & He & Hr & Hf & Hrl & Hol & Hsl & Hl1 & Hcfg1);
      [discriminate|].
    subst evs. rewrite reads_app, reads_cons in Hreads.
    rewrite states_app, states_cons in Hstates.
    apply Forall_app in Hok as [_ Hlast]. apply Forall_cons in Hlast as [Hlast _].
    destruct (deliver_succeeded parseInt last r1 a1 Hlast Hf)
      as (a2 & Hrun2 & He2 & Hr2 & _ & _).
    { intros key result ->. apply Hl1, (Hlog key result), elem_of_app. right. left. }
    { assumption. }
    assert (Hj : joined (advance last r1) = true).
    { unfold joined. unfold reads at 2 in Hreads. unfold states at 2 in Hstates.
      simpl in Hreads, Hstates. pose proof (states_nonneg pre).
      destruct last as [key result|result]; simpl in *.
      - rewrite Hrl, Hol, Hsl.
        destruct (Z.eqb_spec (n - reads pre - 1) 0); [|lia].
        destruct (Z.ltb_spec 0 (states pre)); [reflexivity | lia].
      - rewrite Hrl, Hol.
        destruct (Z.eqb_spec (n - reads pre) 0); [reflexivity | lia]. }
    rewrite Hj in He2, Hr2.
    exists (advance last r1), a2. split.
    { rewrite deliver_all_app, Hrun. simpl. unfold bind. rewrite Hrun2. reflexivity. }
    split; [congruence | assumption].
  - intros pre post Hevs Hpost.
    destruct (Hquiet pre post Hevs Hpost) as (r1 & a1 & Hrun & He & Hr & _). eauto.
Qed.

(** [all().log("/tmp/x")] and [one("RangeError").log("/tmp/y")]: the two
    log reads and the state read, the state file arriving in between. *)
Lemma recovery_joins_once_witness :
  exists r' a',
    deliver_all parse_decimal
      [ ReadDone ALL (ReadData ("99000000" +:+ String newline ""));
        StateDone (inr "ENOENT");
        ReadDone "RangeError" (ReadError "ENOENT") ]
      (Recovery 2 false 2 false false false 13600000)
      (run (log_to (in_string "RangeError") "/tmp/y")
         (run (log_to (in_string ALL) "/tmp/x") new_alerter))
    = (Return r', a') /\
    effects a' = [] ++ [Callback None] /\ _ready a' = true.
Proof.
  refine (proj1 (recovery_joins_once parse_decimal
    [ ReadDone ALL (ReadData ("99000000" +:+ String newline ""));
      StateDone (inr "ENOENT");
      ReadDone "RangeError" (ReadError "ENOENT") ]
    (run (log_to (in_string "RangeError") "/tmp/y")
       (run (log_to (in_string ALL) "/tmp/x") new_alerter))
    2 13600000 _ _ _ _ _)).
  - apply queued_configured_dec. vm_compute. reflexivity.
  - intros key result Hin.
    apply elem_of_cons in Hin as [[= -> _]|Hin];
      [eexists _, _; split; [vm_compute; reflexivity | reflexivity]|].
    apply elem_of_cons in Hin as [Hin|Hin]; [discriminate|].
    apply elem_of_cons in Hin as [[= -> _]|Hin];
      [eexists _, _; split; [vm_compute; reflexivity | reflexivity]|].
    apply elem_of_nil in Hin. contradiction.
  - repeat constructor.
  - reflexivity.
  - reflexivity.
Defined.

(** After an error every completion is dropped. *)
Lemma deliver_all_failed (parseInt : string -> option Z) (evs : list completion)
    (r : recovery) (a : alerter) :
  failed r = true -> deliver_all parseInt evs r a = (Return r, a).
Proof.
  intros Hf. induction evs as [|ev evs IH]; [reflexivity|].
  simpl. unfold bind.
  assert (Hev : deliver parseInt ev r a = (Return r, a)).
  { destruct ev; simpl; unfold readFile_callback, read_state_callback;
      fold (failed r); rewrite Hf; reflexivity. }
  rewrite Hev. exact IH.
Qed.

Lemma deliver_error (parseInt : string -> option Z) (ev : completion) (code : string)
    (r : recovery) (a : alerter) :
  failed r = false -> error_code ev = Some code ->
  exists r', deliver parseInt ev r a
             = (Return r', emit (Callback (Some (IOError code))) a) /\
    failed r' = true.
Proof.
  intros Hf Hcode.
  destruct ev as [key [data|c]|[json|c]]; simpl in Hcode; try discriminate;
    destruct (String.eqb c "ENOENT") eqn:Hc; try discriminate;
    injection Hcode as <-; simpl;
    unfold readFile_callback, read_state_callback; fold (failed r);
    rewrite Hf, Hc; simpl; unfold bind, modify, ret; simpl;
    eexists; (split; [reflexivity|]); unfold failed; simpl.
  - reflexivity.
  - unfold failed in Hf. destruct (read_error r), (open_error r); reflexivity.
Qed.

(** X17: a failed recovery reports once and never becomes ready: the first
    completion with an error (other than a missing file) hands that error
    to the callback of [start]; every later completion, failed or not, is
    dropped, so the callback is called that one time only and the alerter
    is never made ready. *)
Theorem recovery_reports_first_error (parseInt : string -> option Z)
    (pre post : list completion) (bad : completion) (code : string)
    (a : alerter) (n cutoff : Z) :
  queued_configured a -> targets_logged a pre ->
  Forall (fun ev => succeeded ev = true) pre ->
  error_code bad = Some code ->
  (if is_read bad then reads pre < n else states pre = 0) ->
  exists r' a',
    deliver_all parseInt (pre ++ bad :: post)
      (Recovery n false n false false false cutoff) a
    = (Return r', a') /\
    effects a' = effects a ++ [Callback (Some (IOError code))] /\
    _ready a' = _ready a /\ failed r' = true.
Proof.
  intros Hcfg Hlog Hok Hcode Hout.
  destruct (deliver_quiet parseInt pre (Recovery n false n false false false cutoff) a
              Hok eq_refl Hlog Hcfg)
    as (r1 & a1 & Hrun & He & Hr & Hf & _).
  { simpl. destruct (is_read bad); [left; assumption | right; auto]. }
  destruct (deliver_error parseInt bad code r1 a1 Hf Hcode) as (r2 & Hrun2 & Hf2).
  exists r2, (emit (Callback (Some (IOError code))) a1). split.
  { rewrite deliver_all_app, Hrun. simpl. unfold bind. rewrite Hrun2.
    apply deliver_all_failed. assumption. }
  simpl. split; [rewrite He; reflexivity|]. split; assumption.
Qed.

Lemma recovery_reports_first_error_witness :
  exists r' a',
    deliver_all parse_decimal
      ([ StateDone (inr "ENOENT") ] ++
       ReadDone ALL (ReadError "EACCES") ::
       [ ReadDone "RangeError" (ReadData ("99000000" +:+ String newline "")) ])
      (Recovery 2 false 2 false false false 13600000)
      (run (log_to (in_string "RangeError") "/tmp/y")
         (run (log_to (in_string ALL) "/tmp/x") new_alerter))
    = (Return r', a') /\
    effects a' = [] ++ [Callback (Some (IOError "EACCES"))] /\
    _ready a' = false.
Proof.
  destruct (recovery_reports_first_error parse_decimal
    [ StateDone (inr "ENOENT") ]
    [ ReadDone "RangeError" (ReadData ("99000000" +:+ String newline "")) ]
    (ReadDone ALL (ReadError "EACCES")) "EACCES"
    (run (log_to (in_string "RangeError") "/tmp/y")
       (run (log_to (in_string ALL) "/tmp/x") new_alerter))
    2 13600000) as (r' & a' & Hrun & He & Hr & _).
  - apply queued_configured_dec. vm_compute. reflexivity.
  - intros key result Hin. apply elem_of_cons in Hin as [Hin|Hin]; [discriminate|].
    apply elem_of_nil in Hin. contradiction.
  - repeat constructor.
  - reflexivity.
  - vm_compute. reflexivity.
  - exists r', a'. split; [exact Hrun|]. split; [exact He | exact Hr].
Defined.

(** ** Reachable alerters: settings are never dropped *)








(** X19: on every alerter a process can hold the flush returns normally, drops
    no timestamp and duplicates none: it never meets a queue without
    settings, and every history is the same list before and after. *)
Theorem reachable_flush_returns (a : alerter) :
  reachable a ->
  exists a', _flush_queued a = (Return tt, a') /\
    (forall k, history k a' = history k a) /\
    effects a' = effects a.
Proof.
  intros Ha. pose proof (reachable_queued_configured a Ha) as Hcfg.
  destruct (flush_queued_spec a Hcfg) as (a' & Hrun & Hshell & Hhist & _).
  exists a'. split; [assumption|]. split; [assumption|].
  unfold shell in Hshell. congruence.
Qed.

(** [all().log("/tmp/x")], then an occurrence: the stream is not open yet,
    so the occurrence waits in the queue of [_all]. *)
Lemma reachable_flush_returns_witness :
  reachable (run (tell tmp_only 1000 (in_error "RangeError"))
               (run (log_to (in_string ALL) "/tmp/x") new_alerter)) /\
  exists a',
    _flush_queued (run (tell tmp_only 1000 (in_error "RangeError"))
                     (run (log_to (in_string ALL) "/tmp/x") new_alerter))
    = (Return tt, a') /\
    history ALL a' = [1000].
Proof.
  assert (H : reachable (run (tell tmp_only 1000 (in_error "RangeError"))
                           (run (log_to (in_string ALL) "/tmp/x") new_alerter)))
    by (apply reach_tell, reach_log_to, reach_new).
  split; [exact H|].
  destruct (reachable_flush_returns _ H) as (a' & Hrun & Hhist & _).
  exists a'. split; [exact Hrun|]. rewrite Hhist. vm_compute. reflexivity.
Defined.

(** ** Start and configuration *)

(** X20: [start] on an alerter not started yet issues one read per error type
    that is watched and has a log path, and none for the others; the
    closure starts with that many reads and opens outstanding, the state
    file outstanding, no error, and the cutoff the host computed; nothing of
    the alerter changes but the started flag. *)
Theorem start_reads_watched_logs (cutoff : Z) (a : alerter) :
  _started a = false ->
  exists r targets,
    start cutoff a = (Return (r, targets), with_started true a) /\
    (forall k p, Target k p ∈ targets <->
       exists s, _settings a !! k = Some s /\ watch s = true /\
                 log s = Some p /\ p <> EmptyString) /\
    reads_left r = Z.of_nat (length targets) /\
    opens_left r = Z.of_nat (length targets) /\
    state_loaded r = false /\ failed r = false /\
    one_day_ago r = cutoff.
Proof.
  intros Hst. rewrite (start_first cutoff a Hst). eexists _, _.
  split; [reflexivity|]. split; [|repeat split].
  intros k p. apply elem_of_start_targets.
Qed.

Lemma start_reads_watched_logs_witness :
  exists r targets,
    start 13600000 ignoring_alerter
    = (Return (r, targets), with_started true ignoring_alerter) /\
    reads_left r = Z.of_nat (length targets) /\
    Target ALL "/tmp/x" ∈ targets /\
    Target "RangeError" "/tmp/y" ∉ targets.
Proof.
  destruct (start_reads_watched_logs 13600000 ignoring_alerter eq_refl)
    as (r & targets & Hrun & Hin & Hreads & _).
  exists r, targets. split; [exact Hrun|]. split; [exact Hreads|]. split.
  - apply Hin. exists (set_log (Some "/tmp/x") _blank_settings).
    split; [vm_compute; reflexivity|]. split; [reflexivity|].
    split; [reflexivity | discriminate].
  - intros Hy. apply Hin in Hy as (s & Hs & Hw & _).
    assert (Hs' : _settings ignoring_alerter !! "RangeError"
                  = Some (set_watch false (set_log (Some "/tmp/y") _blank_settings)))
      by (vm_compute; reflexivity).
    rewrite Hs' in Hs. injection Hs as <-. discriminate Hw.
Defined.


(** X22: [log(true)] takes the root as it is when called: configured after
    [root(path)] the default log lies under the path, configured before it
    the log path keeps the missing root's "undefined". *)
Theorem log_default_reads_root_now (error : input) (path : string) (a : alerter) :
  _root a = None ->
  (log <$> _settings (run (root path ;; log_default error) a) !! _key error)
  = Some (Some (path +:+ "/" +:+ _key error +:+ ".log")) /\
  (log <$> _settings (run (log_default error ;; root path) a) !! _key error)
  = Some (Some ("undefined" +:+ "/" +:+ _key error +:+ ".log")).
Proof.
  intros Hroot.
  unfold run, root, log_default, _one, bind, modify, ret. simpl. rewrite Hroot.
  split; rewrite lookup_alter_eq;
    (destruct (_settings a !! _key error) as [s|] eqn:Hs; simpl;
     [rewrite Hs | rewrite lookup_insert_eq]; reflexivity).
Qed.

Lemma log_default_reads_root_now_witness :
  (log <$> _settings (run (log_default (in_string ALL) ;; root "/var/alerts") new_alerter)
             !! ALL)
  = Some (Some ("undefined" +:+ "/" +:+ ALL +:+ ".log")).
Proof.
  exact (proj2 (log_default_reads_root_now (in_string ALL) "/var/alerts" new_alerter eq_refl)).
Defined.
